(** * Memory trainer: the action layer over the four tables

    A shallow embedding of [src/db/tables.ts] (the four tables) and of
    [src/src/actions/index.ts] (the seven actions), followed by the
    properties of the actions.

    The database is a record of four row lists in storage order.  A handler
    is a function from the database to a result and a database: the
    statements it awaits run one after the other, an [ActionError] it
    throws ends it, and what it wrote before stays written.  [new Date()]
    is the [now] argument of each handler. *)

From Stdlib Require Import ZArith QArith List String Bool Lia.
Import ListNotations.

Set Warnings "-register-all".

#[local] Open Scope string_scope.
#[local] Open Scope list_scope.
#[local] Open Scope Z_scope.

(** ** Values *)

(** A JSON document: what [z.any()] lets through and a [column.json]
    stores.  [undefined] is not a document; an optional one is an
    [option Json] whose [None] is [undefined]. *)
Inductive Json : Type :=
| JNull
| JBool (b : bool)
| JNum (n : Q)
| JStr (s : string)
| JArr (items : list Json)
| JObj (fields : list (string * Json)).

(** The enum of [MemorySessions.status]. *)
Inductive SessionStatus : Type := in_progress | completed | abandoned.

(** [a ?? b] on a value that is either [undefined] or defined and not
    [null]. *)
Definition nullish {A} (a : option A) (b : A) : A :=
  match a with Some v => v | None => b end.

(** [a ?? b] where [b] itself may be absent (an optional column). *)
Definition nullish_opt {A} (a b : option A) : option A :=
  match a with Some v => Some v | None => b end.

(** What reaches an optional JSON column: [undefined] and [null] are both
    stored as NULL. *)
Definition json_column (a : option Json) : option Json :=
  match a with
  | None | Some JNull => None
  | Some v => Some v
  end.

(** [a ?? b] on an optional JSON input against a stored JSON column:
    [undefined] and [null] both give way to [b]. *)
Definition nullish_json (a b : option Json) : option Json :=
  match json_column a with Some v => Some v | None => b end.

(** ** Conditions of a [where] clause

    [eq], [and] and [or] of astro:db build SQL's [=], [AND] and [OR].  A
    comparison with NULL on either side is neither true nor false, also
    when both sides are NULL (the test for NULL is [isNull], which the
    actions do not use), and [where] keeps the rows on which the condition
    is true. *)
Inductive Cond : Type := CTrue | CFalse | CUnknown.

Module Sql.
Definition eq {A} (eqb : A -> A -> bool) (column value : option A) : Cond :=
  match column, value with
  | Some c, Some v => if eqb c v then CTrue else CFalse
  | _, _ => CUnknown
  end.

Definition and (a b : Cond) : Cond :=
  match a, b with
  | CFalse, _ | _, CFalse => CFalse
  | CTrue, CTrue => CTrue
  | _, _ => CUnknown
  end.

Definition or (a b : Cond) : Cond :=
  match a, b with
  | CTrue, _ | _, CTrue => CTrue
  | CFalse, CFalse => CFalse
  | _, _ => CUnknown
  end.

(** The literal [null] as the right-hand side of [eq]. *)
Definition null {A} : option A := None.
End Sql.

Definition holds (c : Cond) : bool :=
  match c with CTrue => true | _ => false end.

(** ** Tables ([src/db/tables.ts])

    A column without [optional: true] is NOT NULL and carries its type; an
    optional column is an [option]. Dates are instants on the integer
    line. *)
Module MemoryGames.
Record row : Type := mk {
  id : Z;
  ownerId : option string;
  name : string;
  description : option string;
  gameType : string;
  difficultyLevels : option Json;
  isActive : bool;
  createdAt : Z
}.
End MemoryGames.

Module MemorySessions.
Record row : Type := mk {
  id : Z;
  gameId : Z;
  userId : string;
  status : SessionStatus;
  totalScore : Z;
  difficulty : option string;
  startedAt : Z;
  endedAt : option Z;
  meta : option Json
}.
End MemorySessions.

Module MemoryRounds.
Record row : Type := mk {
  id : Z;
  sessionId : Z;
  roundNumber : Z;
  prompt : Json;
  response : option Json;
  isCorrect : bool;
  score : Z;
  createdAt : Z
}.
End MemoryRounds.

Module MemoryPerformance.
Record row : Type := mk {
  id : Z;
  userId : string;
  gameId : Z;
  totalSessions : Z;
  averageScore : Q;
  bestScore : Q;
  difficultyPreference : option string;
  updatedAt : Z
}.
End MemoryPerformance.

(** The database: the rows of each table in storage order. *)
Record Db : Type := mkDb {
  games : list MemoryGames.row;
  sessions : list MemorySessions.row;
  rounds : list MemoryRounds.row;
  performance : list MemoryPerformance.row
}.

Definition emptyDb : Db := mkDb [] [] [] [].

(** An [autoIncrement] primary key: 1 in an empty table, else one more
    than the largest key of the table (no action deletes a row). *)
Definition nextId (ids : list Z) : Z :=
  match ids with
  | [] => 1
  | x :: l => 1 + fold_right Z.max x l
  end.

(** ** Statements *)

(** [select().from(t).where(c)]. *)
Definition select {R} (c : R -> Cond) (t : list R) : list R :=
  filter (fun r => holds (c r)) t.

(** [const [x] = await ....limit(1)]: the first row, or [undefined]. *)
Definition limit1 {R} (rows : list R) : option R := hd_error (firstn 1 rows).

(** [update(t).set(f).where(c)]: the table afterwards. *)
Definition update {R} (c : R -> Cond) (f : R -> R) (t : list R) : list R :=
  map (fun r => if holds (c r) then f r else r) t.

(** [.returning()] of that update: the rows it changed, as changed. *)
Definition updated {R} (c : R -> Cond) (f : R -> R) (t : list R) : list R :=
  map f (select c t).

(** ** Errors and handlers *)

Inductive ErrorCode : Type := UNAUTHORIZED | NOT_FOUND | BAD_REQUEST | INTERNAL_SERVER_ERROR.

Record ActionError : Type := mkError { code : ErrorCode; message : string }.

Definition Result (A : Type) : Type := (ActionError + A)%type.

(** A handler's computation: it reads and writes the database and either
    returns or throws. *)
Definition Action (A : Type) : Type := Db -> Result A * Db.

Definition ret {A} (a : A) : Action A := fun db => (inr a, db).

Definition throw {A} (e : ActionError) : Action A := fun db => (inl e, db).

Definition bind {A B} (m : Action A) (k : A -> Action B) : Action B :=
  fun db =>
    match m db with
    | (inl e, db') => (inl e, db')
    | (inr a, db') => k a db'
    end.

Definition query {A} (f : Db -> A) : Action A := fun db => (inr (f db), db).

Declare Scope action_scope.
Delimit Scope action_scope with action.
Notation "x <- m ;; k" := (bind m (fun x => k))
  (at level 61, m at next level, right associativity) : action_scope.
#[local] Open Scope action_scope.

(** The signed-in user of [context.locals]. *)
Record User : Type := mkUser { user_id : string }.

Record ActionAPIContext : Type := mkContext { locals_user : option User }.

Definition requireUser (context : ActionAPIContext) : Action User :=
  match locals_user context with
  | None =>
      throw (mkError UNAUTHORIZED "You must be signed in to perform this action.")
  | Some user => ret user
  end.

(** [defineAction]: the input is parsed against the [input] schema first
    and the handler runs on an input that passed; a refused input is
    answered BAD_REQUEST (the list of issues is left out of the message). *)
Definition defineAction {I A} (schema : I -> bool)
    (handler : I -> ActionAPIContext -> Z -> Action A)
    (input : I) (context : ActionAPIContext) (now : Z) : Action A :=
  if schema input then handler input context now
  else throw (mkError BAD_REQUEST "Failed to validate").

(** ** Numbers on their way back from the store

    A [column.number] has INTEGER affinity: an integral number that fits a
    64-bit integer is stored as an integer, any other number as a float.
    The client of the store hands an integer to the handler as a
    JavaScript number only if it is a safe integer, at most 2^53 - 1 in
    absolute value, and throws otherwise; a float comes back as it is.  The
    throw happens while the rows of a statement are read: for a [select]
    before the handler sees a row, for [.returning()] after the insert or
    the update is done.  It reaches the caller as INTERNAL_SERVER_ERROR. *)

(** [Number.MAX_SAFE_INTEGER]. *)
Definition maxSafe : Z := 2 ^ 53 - 1.

(** An integer the store holds as an integer and the client refuses. *)
Definition unsafeInteger (n : Z) : bool :=
  (maxSafe <? Z.abs n) && (Z.abs n <? 2 ^ 63).

(** Whether the client returns the value of a number column: for a column
    the schemas keep integral, and for one that takes any number. *)
Definition returnsInteger (n : Z) : bool := negb (unsafeInteger n).

Definition returnsNumber (q : Q) : bool :=
  match Qred q with
  | Qmake n 1 => returnsInteger n
  | _ => true
  end.

(** The rows the client returns.  Keys and references are numbers the
    store has assigned, one above the other from 1; they are left out of
    the test, as are the columns that hold no number.  [MemoryGames] has no
    number column but its key, and a new session has [totalScore] 0: the
    statements on games and the insert of a session return their rows. *)
Definition sessionReturns (s : MemorySessions.row) : bool :=
  returnsInteger (MemorySessions.totalScore s).

Definition roundReturns (r : MemoryRounds.row) : bool :=
  returnsInteger (MemoryRounds.roundNumber r) && returnsInteger (MemoryRounds.score r).

Definition performanceReturns (p : MemoryPerformance.row) : bool :=
  returnsInteger (MemoryPerformance.totalSessions p)
  && returnsNumber (MemoryPerformance.averageScore p)
  && returnsNumber (MemoryPerformance.bestScore p).

Definition rangeError : ActionError :=
  mkError INTERNAL_SERVER_ERROR
    "Received integer which is too large to be safely represented as a JavaScript number".

(** [const [x] = await db.select()....limit(1)] on a table with number
    columns: the first row, or [undefined], once the client has read it. *)
Definition lookup {R} (returns : R -> bool) (rows : Db -> list R) : Action (option R) :=
  fun db =>
    match limit1 (rows db) with
    | Some r => if returns r then (inr (Some r), db) else (inl rangeError, db)
    | None => (inr None, db)
    end.

(** ** Writes *)

Definition insertGame (values : Z -> MemoryGames.row) : Action MemoryGames.row :=
  fun db =>
    let r := values (nextId (map MemoryGames.id (games db))) in
    (inr r, mkDb (games db ++ [r]) (sessions db) (rounds db) (performance db)).

Definition insertSession (values : Z -> MemorySessions.row)
  : Action MemorySessions.row :=
  fun db =>
    let r := values (nextId (map MemorySessions.id (sessions db))) in
    (inr r, mkDb (games db) (sessions db ++ [r]) (rounds db) (performance db)).

Definition insertRound (values : Z -> MemoryRounds.row) : Action MemoryRounds.row :=
  fun db =>
    let r := values (nextId (map MemoryRounds.id (rounds db))) in
    let db' := mkDb (games db) (sessions db) (rounds db ++ [r]) (performance db) in
    if roundReturns r then (inr r, db') else (inl rangeError, db').

Definition insertPerformance (values : Z -> MemoryPerformance.row)
  : Action MemoryPerformance.row :=
  fun db =>
    let r := values (nextId (map MemoryPerformance.id (performance db))) in
    let db' := mkDb (games db) (sessions db) (rounds db) (performance db ++ [r]) in
    if performanceReturns r then (inr r, db') else (inl rangeError, db').

Definition updateGames (c : MemoryGames.row -> Cond)
    (f : MemoryGames.row -> MemoryGames.row) : Action (list MemoryGames.row) :=
  fun db =>
    (inr (updated c f (games db)),
     mkDb (update c f (games db)) (sessions db) (rounds db) (performance db)).

Definition updateSessions (c : MemorySessions.row -> Cond)
    (f : MemorySessions.row -> MemorySessions.row)
  : Action (list MemorySessions.row) :=
  fun db =>
    let db' := mkDb (games db) (update c f (sessions db)) (rounds db) (performance db) in
    let changed := updated c f (sessions db) in
    if forallb sessionReturns changed then (inr changed, db') else (inl rangeError, db').

Definition updatePerformance (c : MemoryPerformance.row -> Cond)
    (f : MemoryPerformance.row -> MemoryPerformance.row)
  : Action (list MemoryPerformance.row) :=
  fun db =>
    let db' := mkDb (games db) (sessions db) (rounds db) (update c f (performance db)) in
    let changed := updated c f (performance db) in
    if forallb performanceReturns changed then (inr changed, db')
    else (inl rangeError, db').

(** ** createGame *)

Module CreateGame.
Record input : Type := mk {
  name : string;
  description : option string;
  gameType : string;
  difficultyLevels : option Json;
  isActive : option bool
}.

(** [name] and [gameType] are [z.string().min(1)]. *)
Definition schema (i : input) : bool :=
  (1 <=? Z.of_nat (String.length (name i)))
  && (1 <=? Z.of_nat (String.length (gameType i))).

Definition handler (i : input) (context : ActionAPIContext) (now : Z)
  : Action MemoryGames.row :=
  user <- requireUser context ;;
  insertGame (fun id =>
    MemoryGames.mk id (Some (user_id user)) (name i) (description i)
      (gameType i) (json_column (difficultyLevels i))
      (nullish (isActive i) true) now).
End CreateGame.

Definition createGame := defineAction CreateGame.schema CreateGame.handler.

(** ** updateGame *)

Module UpdateGame.
Record input : Type := mk {
  id : Z;
  name : option string;
  description : option string;
  gameType : option string;
  difficultyLevels : option Json;
  isActive : option bool
}.

(** Only [name] is constrained: [z.string().min(1).optional()]. *)
Definition schema (i : input) : bool :=
  match name i with
  | Some n => 1 <=? Z.of_nat (String.length n)
  | None => true
  end.

(** One entry of [updateData]: a key with its defined value. *)
Inductive entry : Type :=
| set_name (v : string)
| set_description (v : string)
| set_gameType (v : string)
| set_difficultyLevels (v : Json)
| set_isActive (v : bool).

Definition defined {A} (k : A -> entry) (v : option A) : list entry :=
  match v with Some a => [k a] | None => [] end.

(** The loop over [Object.entries(rest)]: the keys whose value is not
    [undefined], in the order of the schema. *)
Definition updateData (i : input) : list entry :=
  defined set_name (name i)
  ++ defined set_description (description i)
  ++ defined set_gameType (gameType i)
  ++ defined set_difficultyLevels (difficultyLevels i)
  ++ defined set_isActive (isActive i).

Definition assign (g : MemoryGames.row) (e : entry) : MemoryGames.row :=
  match e with
  | set_name v =>
      MemoryGames.mk (MemoryGames.id g) (MemoryGames.ownerId g) v
        (MemoryGames.description g) (MemoryGames.gameType g)
        (MemoryGames.difficultyLevels g) (MemoryGames.isActive g)
        (MemoryGames.createdAt g)
  | set_description v =>
      MemoryGames.mk (MemoryGames.id g) (MemoryGames.ownerId g)
        (MemoryGames.name g) (Some v) (MemoryGames.gameType g)
        (MemoryGames.difficultyLevels g) (MemoryGames.isActive g)
        (MemoryGames.createdAt g)
  | set_gameType v =>
      MemoryGames.mk (MemoryGames.id g) (MemoryGames.ownerId g)
        (MemoryGames.name g) (MemoryGames.description g) v
        (MemoryGames.difficultyLevels g) (MemoryGames.isActive g)
        (MemoryGames.createdAt g)
  | set_difficultyLevels v =>
      MemoryGames.mk (MemoryGames.id g) (MemoryGames.ownerId g)
        (MemoryGames.name g) (MemoryGames.description g)
        (MemoryGames.gameType g) (json_column (Some v))
        (MemoryGames.isActive g) (MemoryGames.createdAt g)
  | set_isActive v =>
      MemoryGames.mk (MemoryGames.id g) (MemoryGames.ownerId g)
        (MemoryGames.name g) (MemoryGames.description g)
        (MemoryGames.gameType g) (MemoryGames.difficultyLevels g) v
        (MemoryGames.createdAt g)
  end.

(** [.set(updateData)]. *)
Definition set (data : list entry) (g : MemoryGames.row) : MemoryGames.row :=
  fold_left assign data g.

(** [and(eq(MemoryGames.id, id), eq(MemoryGames.ownerId, user.id))]. *)
Definition owned (i : Z) (user : User) (g : MemoryGames.row) : Cond :=
  Sql.and (Sql.eq Z.eqb (Some (MemoryGames.id g)) (Some i))
          (Sql.eq String.eqb (MemoryGames.ownerId g) (Some (user_id user))).

Definition handler (i : input) (context : ActionAPIContext) (now : Z)
  : Action (option MemoryGames.row) :=
  user <- requireUser context ;;
  existing <- query (fun db => limit1 (select (owned (id i) user) (games db))) ;;
  match existing with
  | None => throw (mkError NOT_FOUND "Game not found.")
  | Some existing =>
      match updateData i with
      | [] => ret (Some existing)
      | data =>
          changed <- updateGames (owned (id i) user) (set data) ;;
          ret (hd_error changed)
      end
  end.
End UpdateGame.

Definition updateGame := defineAction UpdateGame.schema UpdateGame.handler.

(** ** listMyGames *)

Module ListMyGames.
Record input : Type := mk { includeInactive : option bool }.

Definition schema (i : option input) : bool := true.

Definition handler (i : option input) (context : ActionAPIContext) (now : Z)
  : Action (list MemoryGames.row) :=
  user <- requireUser context ;;
  let includeInactive :=
    nullish (match i with Some o => includeInactive o | None => None end) false in
  games <- query (fun db =>
    select (fun g => Sql.eq String.eqb (MemoryGames.ownerId g)
                       (Some (user_id user))) (games db)) ;;
  let filtered :=
    if includeInactive then games else filter MemoryGames.isActive games in
  ret filtered.
End ListMyGames.

Definition listMyGames := defineAction ListMyGames.schema ListMyGames.handler.

(** ** startSession *)

(** The condition both [startSession] and [upsertPerformance] select a
    game by:
    [and(eq(MemoryGames.id, gameId),
         or(eq(MemoryGames.ownerId, user.id), eq(MemoryGames.ownerId, null)))]. *)
Definition accessible (gameId : Z) (user : User) (g : MemoryGames.row) : Cond :=
  Sql.and (Sql.eq Z.eqb (Some (MemoryGames.id g)) (Some gameId))
          (Sql.or (Sql.eq String.eqb (MemoryGames.ownerId g) (Some (user_id user)))
                  (Sql.eq String.eqb (MemoryGames.ownerId g) Sql.null)).

Module StartSession.
Record input : Type := mk {
  gameId : Z;
  difficulty : option string;
  meta : option Json
}.

Definition schema (i : input) : bool := true.

Definition handler (i : input) (context : ActionAPIContext) (now : Z)
  : Action MemorySessions.row :=
  user <- requireUser context ;;
  game <- query (fun db => limit1 (select (accessible (gameId i) user) (games db))) ;;
  match game with
  | None => throw (mkError NOT_FOUND "Game not available.")
  | Some game =>
      if negb (MemoryGames.isActive game)
      then throw (mkError NOT_FOUND "Game not available.")
      else
        insertSession (fun id =>
          MemorySessions.mk id (gameId i) (user_id user) in_progress 0
            (difficulty i) now None (json_column (meta i)))
  end.
End StartSession.

Definition startSession := defineAction StartSession.schema StartSession.handler.

(** ** completeSession *)

(** [and(eq(MemorySessions.id, id), eq(MemorySessions.userId, user.id))],
    the lookup of [completeSession] and of [recordRound]. *)
Definition ownSession (id : Z) (user : User) (s : MemorySessions.row) : Cond :=
  Sql.and (Sql.eq Z.eqb (Some (MemorySessions.id s)) (Some id))
          (Sql.eq String.eqb (Some (MemorySessions.userId s)) (Some (user_id user))).

Module CompleteSession.
Record input : Type := mk {
  id : Z;
  totalScore : option Z;
  difficulty : option string;
  status : option SessionStatus;
  meta : option Json
}.

(** [totalScore] is [z.number().int().nonnegative().optional()]. *)
Definition schema (i : input) : bool :=
  match totalScore i with Some n => 0 <=? n | None => true end.

(** The [.set({...})] of the update, computed from the input and from
    the session that was looked up. *)
Definition set (i : input) (session : MemorySessions.row) (now : Z)
    (s : MemorySessions.row) : MemorySessions.row :=
  MemorySessions.mk (MemorySessions.id s) (MemorySessions.gameId s)
    (MemorySessions.userId s)
    (nullish (status i) completed)
    (nullish (totalScore i) (MemorySessions.totalScore session))
    (nullish_opt (difficulty i) (MemorySessions.difficulty session))
    (MemorySessions.startedAt s)
    (Some now)
    (nullish_json (meta i) (MemorySessions.meta session)).

Definition handler (i : input) (context : ActionAPIContext) (now : Z)
  : Action (option MemorySessions.row) :=
  user <- requireUser context ;;
  session <- lookup sessionReturns
               (fun db => select (ownSession (id i) user) (sessions db)) ;;
  match session with
  | None => throw (mkError NOT_FOUND "Session not found.")
  | Some session =>
      changed <- updateSessions
        (fun s => Sql.eq Z.eqb (Some (MemorySessions.id s)) (Some (id i)))
        (set i session now) ;;
      ret (hd_error changed)
  end.
End CompleteSession.

Definition completeSession :=
  defineAction CompleteSession.schema CompleteSession.handler.

(** ** recordRound *)

Module RecordRound.
Record input : Type := mk {
  sessionId : Z;
  roundNumber : option Z;
  prompt : option Json;
  response : option Json;
  isCorrect : option bool;
  score : option Z
}.

(** [roundNumber] is positive and [score] nonnegative when given;
    [prompt] is [z.any()], which lets [undefined] and [null] through. *)
Definition schema (i : input) : bool :=
  match roundNumber i with Some n => 0 <? n | None => true end
  && match score i with Some n => 0 <=? n | None => true end.

(** [MemoryRounds.prompt] is not optional: the insert of a row without a
    prompt is refused by the store. *)
Definition notNull (v : option Json) : Action Json :=
  match json_column v with
  | Some p => ret p
  | None =>
      throw (mkError INTERNAL_SERVER_ERROR
               "SQLITE_CONSTRAINT_NOTNULL: NOT NULL constraint failed: MemoryRounds.prompt")
  end.

Definition handler (i : input) (context : ActionAPIContext) (now : Z)
  : Action MemoryRounds.row :=
  user <- requireUser context ;;
  session <- lookup sessionReturns
               (fun db => select (ownSession (sessionId i) user) (sessions db)) ;;
  match session with
  | None => throw (mkError NOT_FOUND "Session not found.")
  | Some _ =>
      p <- notNull (prompt i) ;;
      insertRound (fun id =>
        MemoryRounds.mk id (sessionId i) (nullish (roundNumber i) 1) p
          (json_column (response i)) (nullish (isCorrect i) false)
          (nullish (score i) 0) now)
  end.
End RecordRound.

Definition recordRound := defineAction RecordRound.schema RecordRound.handler.

(** ** upsertPerformance *)

Module UpsertPerformance.
Record input : Type := mk {
  gameId : Z;
  totalSessions : option Z;
  averageScore : option Q;
  bestScore : option Q;
  difficultyPreference : option string
}.

Definition nonnegative (q : option Q) : bool :=
  match q with Some v => Qle_bool 0 v | None => true end.

Definition schema (i : input) : bool :=
  match totalSessions i with Some n => 0 <=? n | None => true end
  && nonnegative (averageScore i) && nonnegative (bestScore i).

(** [and(eq(MemoryPerformance.gameId, gameId),
         eq(MemoryPerformance.userId, user.id))]. *)
Definition ofPair (gameId : Z) (user : User) (p : MemoryPerformance.row) : Cond :=
  Sql.and (Sql.eq Z.eqb (Some (MemoryPerformance.gameId p)) (Some gameId))
          (Sql.eq String.eqb (Some (MemoryPerformance.userId p))
                  (Some (user_id user))).

(** [existing?.f]. *)
Definition field {A} (f : MemoryPerformance.row -> A)
    (existing : option MemoryPerformance.row) : option A :=
  option_map f existing.

Definition baseValues (i : input) (user : User)
    (existing : option MemoryPerformance.row) (now : Z) (id : Z)
  : MemoryPerformance.row :=
  MemoryPerformance.mk id (user_id user) (gameId i)
    (nullish (nullish_opt (totalSessions i)
                (field MemoryPerformance.totalSessions existing)) 0)
    (nullish (nullish_opt (averageScore i)
                (field MemoryPerformance.averageScore existing)) 0%Q)
    (nullish (nullish_opt (bestScore i)
                (field MemoryPerformance.bestScore existing)) 0%Q)
    (nullish_opt (difficultyPreference i)
       (match existing with
        | Some e => MemoryPerformance.difficultyPreference e
        | None => None
        end))
    now.

Definition handler (i : input) (context : ActionAPIContext) (now : Z)
  : Action (option MemoryPerformance.row) :=
  user <- requireUser context ;;
  game <- query (fun db => limit1 (select (accessible (gameId i) user) (games db))) ;;
  match game with
  | None => throw (mkError NOT_FOUND "Game not found.")
  | Some _ =>
      existing <- lookup performanceReturns
                    (fun db => select (ofPair (gameId i) user) (performance db)) ;;
      match existing with
      | Some e =>
          changed <- updatePerformance
            (fun p => Sql.eq Z.eqb (Some (MemoryPerformance.id p))
                        (Some (MemoryPerformance.id e)))
            (fun p => baseValues i user existing now (MemoryPerformance.id p)) ;;
          ret (hd_error changed)
      | None =>
          p <- insertPerformance (baseValues i user existing now) ;;
          ret (Some p)
      end
  end.
End UpsertPerformance.

Definition upsertPerformance :=
  defineAction UpsertPerformance.schema UpsertPerformance.handler.

(** ** Sequences of calls *)

(** One request: an action with its input. *)
Inductive Call : Type :=
| CallCreateGame (i : CreateGame.input)
| CallUpdateGame (i : UpdateGame.input)
| CallListMyGames (i : option ListMyGames.input)
| CallStartSession (i : StartSession.input)
| CallCompleteSession (i : CompleteSession.input)
| CallRecordRound (i : RecordRound.input)
| CallUpsertPerformance (i : UpsertPerformance.input).

(** The database after a request, whether it returned or threw. *)
Definition run (c : Call) (context : ActionAPIContext) (now : Z) (db : Db) : Db :=
  match c with
  | CallCreateGame i => snd (createGame i context now db)
  | CallUpdateGame i => snd (updateGame i context now db)
  | CallListMyGames i => snd (listMyGames i context now db)
  | CallStartSession i => snd (startSession i context now db)
  | CallCompleteSession i => snd (completeSession i context now db)
  | CallRecordRound i => snd (recordRound i context now db)
  | CallUpsertPerformance i => snd (upsertPerformance i context now db)
  end.

(** The databases that requests, one after the other and by any callers,
    lead to from [db0]. *)
Inductive reachable (db0 : Db) : Db -> Prop :=
| reachable_start : reachable db0 db0
| reachable_call db c context now :
    reachable db0 db -> reachable db0 (run c context now db).

(** ** Primary keys and invariants *)

(** The primary key of [MemoryGames]. *)
Definition gameKeys (db : Db) : Prop := NoDup (map MemoryGames.id (games db)).

(** The primary key of [MemorySessions]. *)
Definition sessionKeys (db : Db) : Prop := NoDup (map MemorySessions.id (sessions db)).

(** The primary key of [MemoryPerformance]. *)
Definition performanceKeys (db : Db) : Prop :=
  NoDup (map MemoryPerformance.id (performance db)).

(** The pair a performance row is for. *)
Definition pairOf (p : MemoryPerformance.row) : string * Z :=
  (MemoryPerformance.userId p, MemoryPerformance.gameId p).

(** No two performance rows are for the same (userId, gameId). *)
Definition onePerPair (db : Db) : Prop := NoDup (map pairOf (performance db)).

(** Every game has a name of at least one character. *)
Definition namesNonEmpty (db : Db) : Prop :=
  forall g, In g (games db) -> MemoryGames.name g <> "".

(** The primary key of [MemoryRounds]. *)
Definition roundKeys (db : Db) : Prop := NoDup (map MemoryRounds.id (rounds db)).

(** The [references] of the tables: a session and a performance row name
    a stored game, a round names a stored session. *)
Definition referencesHold (db : Db) : Prop :=
  (forall s, In s (sessions db) ->
             In (MemorySessions.gameId s) (map MemoryGames.id (games db))) /\
  (forall r, In r (rounds db) ->
             In (MemoryRounds.sessionId r) (map MemorySessions.id (sessions db))) /\
  (forall p, In p (performance db) ->
             In (MemoryPerformance.gameId p) (map MemoryGames.id (games db))).

(** The ranges the schemas let in: scores and counts are not negative, a
    round number is at least 1. *)
Definition inRange (db : Db) : Prop :=
  (forall s, In s (sessions db) -> 0 <= MemorySessions.totalScore s) /\
  (forall r, In r (rounds db) ->
             1 <= MemoryRounds.roundNumber r /\ 0 <= MemoryRounds.score r) /\
  (forall p, In p (performance db) ->
             0 <= MemoryPerformance.totalSessions p /\
             (0 <= MemoryPerformance.averageScore p)%Q /\
             (0 <= MemoryPerformance.bestScore p)%Q).

(** A session without end time is as [startSession] made it. *)
Definition openSessionsFresh (db : Db) : Prop :=
  forall s, In s (sessions db) -> MemorySessions.endedAt s = None ->
            MemorySessions.status s = in_progress /\
            MemorySessions.totalScore s = 0.

(** ** Safe numbers *)

(** A safe integer: at most 2^53 - 1 in absolute value. *)
Definition safeInteger (n : Z) : bool := Z.abs n <=? maxSafe.

(** A number within the bounds of the safe integers. *)
Definition safeNumber (q : Q) : bool :=
  Qle_bool (inject_Z (- maxSafe)) q && Qle_bool q (inject_Z maxSafe).

(** An optional number of an input: safe where it is given. *)
Definition safeGiven (n : option Z) : bool :=
  match n with Some v => safeInteger v | None => true end.

Definition safeGivenNumber (q : option Q) : bool :=
  match q with Some v => safeNumber v | None => true end.

(** The numbers of a round input and of a performance input are safe. *)
Definition safeRound (i : RecordRound.input) : bool :=
  safeGiven (RecordRound.roundNumber i) && safeGiven (RecordRound.score i).

Definition safeUpsert (i : UpsertPerformance.input) : bool :=
  safeGiven (UpsertPerformance.totalSessions i)
  && safeGivenNumber (UpsertPerformance.averageScore i)
  && safeGivenNumber (UpsertPerformance.bestScore i).

(** The numbers of a stored performance row are safe. *)
Definition safePerformance (p : MemoryPerformance.row) : bool :=
  safeInteger (MemoryPerformance.totalSessions p)
  && safeNumber (MemoryPerformance.averageScore p)
  && safeNumber (MemoryPerformance.bestScore p).

(** ** What a request is answered with *)

(** The error of a result, if it is one. *)
Definition thrown {A} (r : Result A * Db) : option ActionError :=
  match fst r with inl e => Some e | inr _ => None end.

(** The error a request is answered with, if it throws. *)
Definition answer (c : Call) (context : ActionAPIContext) (now : Z) (db : Db)
  : option ActionError :=
  match c with
  | CallCreateGame i => thrown (createGame i context now db)
  | CallUpdateGame i => thrown (updateGame i context now db)
  | CallListMyGames i => thrown (listMyGames i context now db)
  | CallStartSession i => thrown (startSession i context now db)
  | CallCompleteSession i => thrown (completeSession i context now db)
  | CallRecordRound i => thrown (recordRound i context now db)
  | CallUpsertPerformance i => thrown (upsertPerformance i context now db)
  end.

(** Whether the input of a request passes the schema of its action. *)
Definition valid (c : Call) : bool :=
  match c with
  | CallCreateGame i => CreateGame.schema i
  | CallUpdateGame i => UpdateGame.schema i
  | CallListMyGames i => ListMyGames.schema i
  | CallStartSession i => StartSession.schema i
  | CallCompleteSession i => CompleteSession.schema i
  | CallRecordRound i => RecordRound.schema i
  | CallUpsertPerformance i => UpsertPerformance.schema i
  end.

(** The writes the handlers make, each with what the handler has checked
    before it: [Write db db'] when one request can take [db] to [db']. *)
Inductive Write (db : Db) : Db -> Prop :=
| write_nothing : Write db db
| write_createGame i user now :
    CreateGame.schema i = true ->
    Write db
      (mkDb (games db ++
             [MemoryGames.mk (nextId (map MemoryGames.id (games db)))
                (Some (user_id user)) (CreateGame.name i) (CreateGame.description i)
                (CreateGame.gameType i) (json_column (CreateGame.difficultyLevels i))
                (nullish (CreateGame.isActive i) true) now])
            (sessions db) (rounds db) (performance db))
| write_updateGame i user :
    UpdateGame.schema i = true ->
    Write db
      (mkDb (update (UpdateGame.owned (UpdateGame.id i) user)
                    (UpdateGame.set (UpdateGame.updateData i)) (games db))
            (sessions db) (rounds db) (performance db))
| write_startSession i user now g :
    In g (games db) -> MemoryGames.id g = StartSession.gameId i ->
    MemoryGames.ownerId g = Some (user_id user) -> MemoryGames.isActive g = true ->
    Write db
      (mkDb (games db)
            (sessions db ++
             [MemorySessions.mk (nextId (map MemorySessions.id (sessions db)))
                (StartSession.gameId i) (user_id user) in_progress 0
                (StartSession.difficulty i) now None
                (json_column (StartSession.meta i))])
            (rounds db) (performance db))
| write_completeSession i user now session :
    CompleteSession.schema i = true ->
    In session (sessions db) ->
    MemorySessions.id session = CompleteSession.id i ->
    MemorySessions.userId session = user_id user ->
    Write db
      (mkDb (games db)
            (update (fun s => Sql.eq Z.eqb (Some (MemorySessions.id s))
                                (Some (CompleteSession.id i)))
                    (CompleteSession.set i session now) (sessions db))
            (rounds db) (performance db))
| write_recordRound i user now s p :
    RecordRound.schema i = true ->
    In s (sessions db) -> MemorySessions.id s = RecordRound.sessionId i ->
    MemorySessions.userId s = user_id user ->
    json_column (RecordRound.prompt i) = Some p ->
    Write db
      (mkDb (games db) (sessions db)
            (rounds db ++
             [MemoryRounds.mk (nextId (map MemoryRounds.id (rounds db)))
                (RecordRound.sessionId i) (nullish (RecordRound.roundNumber i) 1) p
                (json_column (RecordRound.response i))
                (nullish (RecordRound.isCorrect i) false)
                (nullish (RecordRound.score i) 0) now])
            (performance db))
| write_updatePerformance i user now g e :
    UpsertPerformance.schema i = true ->
    In g (games db) -> MemoryGames.id g = UpsertPerformance.gameId i ->
    limit1 (select (UpsertPerformance.ofPair (UpsertPerformance.gameId i) user)
                   (performance db)) = Some e ->
    Write db
      (mkDb (games db) (sessions db) (rounds db)
            (update (fun p => Sql.eq Z.eqb (Some (MemoryPerformance.id p))
                                (Some (MemoryPerformance.id e)))
                    (fun p => UpsertPerformance.baseValues i user (Some e) now
                                (MemoryPerformance.id p))
                    (performance db)))
| write_insertPerformance i user now g :
    UpsertPerformance.schema i = true ->
    In g (games db) -> MemoryGames.id g = UpsertPerformance.gameId i ->
    limit1 (select (UpsertPerformance.ofPair (UpsertPerformance.gameId i) user)
                   (performance db)) = None ->
    Write db
      (mkDb (games db) (sessions db) (rounds db)
            (performance db ++
             [UpsertPerformance.baseValues i user None now
                (nextId (map MemoryPerformance.id (performance db)))])).

(** ** Sample data *)

Module Sample.
Definition alice : User := mkUser "alice".
Definition bob : User := mkUser "bob".
Definition asAlice : ActionAPIContext := mkContext (Some alice).
Definition asBob : ActionAPIContext := mkContext (Some bob).

(** A system-owned game, a game of alice, and a game alice switched off. *)
Definition sharedGame : MemoryGames.row :=
  MemoryGames.mk 1 None "Recall" None "sequence" None true 0.
Definition aliceGame : MemoryGames.row :=
  MemoryGames.mk 2 (Some "alice") "Pattern" None "pattern" None true 0.
Definition retiredGame : MemoryGames.row :=
  MemoryGames.mk 3 (Some "alice") "Words" None "words" None false 0.

Definition catalog : Db := mkDb [sharedGame; aliceGame; retiredGame] [] [] [].

(** A session of alice that is already abandoned. *)
Definition abandonedSession : MemorySessions.row :=
  MemorySessions.mk 1 2 "alice" abandoned 7 (Some "hard") 5 (Some 6) None.

Definition played : Db :=
  mkDb [sharedGame; aliceGame; retiredGame] [abandonedSession] [] [].

(** Two calls of [upsertPerformance] by alice for her game 2. *)
Definition firstUpsert : UpsertPerformance.input :=
  UpsertPerformance.mk 2 (Some 5) None None None.
Definition secondUpsert : UpsertPerformance.input :=
  UpsertPerformance.mk 2 None None (Some 90%Q) None.

(** A round alice records against her abandoned session, with only the
    prompt given. *)
Definition roundInput : RecordRound.input :=
  RecordRound.mk 1 None (Some (JArr [JNum 1%Q; JNum 2%Q; JNum 3%Q])) None None None.

(** An update of alice's game 2 with no field, and one that clears its
    game type. *)
Definition noFields : UpdateGame.input := UpdateGame.mk 2 None None None None None.
Definition clearGameType : UpdateGame.input :=
  UpdateGame.mk 2 None None (Some "") None None.

Definition afterFirstUpsert : Db :=
  run (CallUpsertPerformance firstUpsert) asAlice 30 catalog.

(** Requests of alice that carry the integer 2^53, or 2^60, which the
    schemas let in, and the databases they leave. *)
Definition unsafeTotal : CompleteSession.input :=
  CompleteSession.mk 1 (Some (2 ^ 53)) None None None.
Definition afterUnsafeTotal : Db :=
  run (CallCompleteSession unsafeTotal) asAlice 20 played.

Definition unsafeScore : RecordRound.input :=
  RecordRound.mk 1 None (Some (JArr [JNum 1%Q; JNum 2%Q; JNum 3%Q])) None None
    (Some (2 ^ 60)).

Definition unsafeUpsert : UpsertPerformance.input :=
  UpsertPerformance.mk 2 (Some (2 ^ 53)) None None None.
Definition afterUnsafeUpsert : Db :=
  run (CallUpsertPerformance unsafeUpsert) asAlice 30 catalog.
End Sample.

(** * Properties *)

(** ** Selecting rows *)

Lemma holds_and a b : holds (Sql.and a b) = holds a && holds b.
Proof. destruct a, b; reflexivity. Qed.

Lemma holds_or a b : holds (Sql.or a b) = holds a || holds b.
Proof. destruct a, b; reflexivity. Qed.

Lemma holds_eq_Z x y : holds (Sql.eq Z.eqb (Some x) (Some y)) = (x =? y).
Proof. unfold Sql.eq. destruct (x =? y); reflexivity. Qed.

Lemma holds_eq_string x y :
  holds (Sql.eq String.eqb x (Some y)) =
  match x with Some s => String.eqb s y | None => false end.
Proof. destruct x as [s|]; simpl; [destruct (String.eqb s y)|]; reflexivity. Qed.

(** Comparing a column with the literal [null] holds on no row. *)
Lemma holds_eq_null {A} (eqb : A -> A -> bool) (x : option A) :
  holds (Sql.eq eqb x Sql.null) = false.
Proof. destruct x; reflexivity. Qed.

Lemma limit1_hd {R} (l : list R) : limit1 l = hd_error l.
Proof. destruct l; reflexivity. Qed.

Lemma limit1_select_Some {R} (c : R -> Cond) (t : list R) (r : R) :
  limit1 (select c t) = Some r -> In r t /\ holds (c r) = true.
Proof.
  rewrite limit1_hd. unfold select.
  destruct (filter (fun r => holds (c r)) t) as [|x l] eqn:E; simpl; [discriminate|].
  intros [= ->]. apply (filter_In (fun r => holds (c r))). rewrite E. now left.
Qed.

Lemma limit1_select_None {R} (c : R -> Cond) (t : list R) :
  limit1 (select c t) = None -> forall r, In r t -> holds (c r) = false.
Proof.
  rewrite limit1_hd. unfold select. intros E r Hr.
  destruct (holds (c r)) eqn:Hc; [|reflexivity].
  assert (Hin : In r (filter (fun r => holds (c r)) t)) by (apply filter_In; auto).
  destruct (filter (fun r => holds (c r)) t); [destruct Hin | discriminate].
Qed.

Lemma select_none {R} (c : R -> Cond) (t : list R) :
  (forall r, In r t -> holds (c r) = false) -> select c t = [].
Proof.
  induction t as [|x t IH]; intros H; [reflexivity|].
  unfold select in *. simpl. rewrite (H x (or_introl Logic.eq_refl)).
  apply IH. intros r Hr. apply H. now right.
Qed.

(** Under a primary key, a condition that fixes the key selects the one
    row that carries it. *)
Lemma select_by_key {R} (key : R -> Z) (c : R -> Cond) (t : list R) (r : R) :
  NoDup (map key t) -> In r t -> holds (c r) = true ->
  (forall r', holds (c r') = true -> key r' = key r) ->
  select c t = [r].
Proof.
  intros Hnd Hin Hc Hkey. induction t as [|x t IH]; [destruct Hin|].
  simpl in Hnd. inversion Hnd as [|? ? Hx Hnd']; subst.
  unfold select in *. simpl. destruct Hin as [-> | Hin].
  - rewrite Hc. f_equal. apply (select_none c). intros r' Hr'.
    destruct (holds (c r')) eqn:E; [|reflexivity].
    exfalso. apply Hx. rewrite <- (Hkey r' E). now apply in_map.
  - destruct (holds (c x)) eqn:E.
    + exfalso. apply Hx. rewrite (Hkey x E). now apply in_map.
    + now apply IH.
Qed.

Lemma select_by {R K} (key : R -> K) (c : R -> Cond) (t : list R) (r : R) :
  NoDup (map key t) -> In r t -> holds (c r) = true ->
  (forall r', holds (c r') = true -> key r' = key r) ->
  select c t = [r].
Proof.
  intros Hnd Hin Hc Hkey. induction t as [|x t IH]; [destruct Hin|].
  simpl in Hnd. inversion Hnd as [|? ? Hx Hnd']; subst.
  unfold select in *. simpl. destruct Hin as [-> | Hin].
  - rewrite Hc. f_equal. apply (select_none c). intros r' Hr'.
    destruct (holds (c r')) eqn:E; [|reflexivity].
    exfalso. apply Hx. rewrite <- (Hkey r' E). now apply in_map.
  - destruct (holds (c x)) eqn:E.
    + exfalso. apply Hx. rewrite (Hkey x E). now apply in_map.
    + now apply IH.
Qed.

Lemma nextId_fresh (ids : list Z) : forall x, In x ids -> x < nextId ids.
Proof.
  unfold nextId. destruct ids as [|y ids]; intros x Hx; [destruct Hx|].
  assert (H : forall l z, z = y \/ In z l -> z <= fold_right Z.max y l).
  { induction l as [|a l IH]; intros z; cbn [fold_right In].
    - intros [-> | []]. lia.
    - intros [Hz | [<- | Hz]]; [specialize (IH z (or_introl Hz)) | | specialize (IH z (or_intror Hz))]; lia. }
  specialize (H ids x). destruct Hx as [<- | Hx]; [specialize (H (or_introl Logic.eq_refl)) | specialize (H (or_intror Hx))]; lia.
Qed.

Lemma nextId_not_in (ids : list Z) : ~ In (nextId ids) ids.
Proof. intros H. apply nextId_fresh in H. lia. Qed.

(** The client returns the safe integers and the numbers within their
    bounds. *)
Lemma safeInteger_returns n : safeInteger n = true -> returnsInteger n = true.
Proof.
  unfold safeInteger, returnsInteger, unsafeInteger. intros H%Z.leb_le.
  apply negb_true_iff, andb_false_iff. left. now apply Z.ltb_ge.
Qed.

Lemma safeNumber_returns q : safeNumber q = true -> returnsNumber q = true.
Proof.
  unfold safeNumber, returnsNumber. intros [Hl Hu]%andb_true_iff.
  apply Qle_bool_iff in Hl, Hu.
  pose proof (Qred_correct q) as Hq. destruct (Qred q) as [n d].
  destruct d; try reflexivity.
  apply safeInteger_returns. unfold safeInteger. apply Z.leb_le.
  rewrite <- Hq in Hl, Hu. unfold Qle, inject_Z in Hl, Hu.
  cbn [Qnum Qden] in Hl, Hu. lia.
Qed.

Lemma NoDup_snoc {A} (l : list A) (a : A) : NoDup l -> ~ In a l -> NoDup (l ++ [a]).
Proof.
  intros Hl Ha. induction Hl as [|x l Hx Hl IH]; simpl.
  - constructor; [intros []|constructor].
  - constructor.
    + rewrite in_app_iff. intros [H|[H|[]]]; [now apply Hx|]. subst. apply Ha. now left.
    + apply IH. intros H. apply Ha. now right.
Qed.

Lemma update_map_fixed {R K} (key : R -> K) (c : R -> Cond) (f : R -> R) (t : list R) :
  (forall r, In r t -> holds (c r) = true -> key (f r) = key r) ->
  map key (update c f t) = map key t.
Proof.
  intros H. unfold update. rewrite map_map. apply map_ext_in. intros r Hr.
  destruct (holds (c r)) eqn:E; [now apply H|reflexivity].
Qed.

Lemma update_In {R} (c : R -> Cond) (f : R -> R) (t : list R) (r : R) :
  In r t -> holds (c r) = true -> In (f r) (update c f t).
Proof.
  intros Hr Hc. unfold update. apply in_map_iff. exists r. now rewrite Hc.
Qed.

Arguments Sql.eq : simpl never.
Arguments Sql.and : simpl never.
Arguments Sql.or : simpl never.
Arguments select : simpl never.
Arguments update : simpl never.
Arguments returnsInteger : simpl never.
Arguments returnsNumber : simpl never.
Arguments sessionReturns : simpl never.
Arguments roundReturns : simpl never.
Arguments performanceReturns : simpl never.
Arguments safeInteger : simpl never.
Arguments safeNumber : simpl never.

Ltac run_action :=
  unfold defineAction, bind, requireUser, query, lookup, ret, throw; simpl.

(** ** startSession *)

(** When it succeeds, [startSession] returns the row it appended. *)
Lemma startSession_inserts i context now db s db' :
  startSession i context now db = (inr s, db') ->
  exists user,
    locals_user context = Some user /\
    sessions db' = sessions db ++ [s] /\
    MemorySessions.status s = in_progress /\
    MemorySessions.userId s = user_id user /\
    MemorySessions.startedAt s = now /\
    MemorySessions.gameId s = StartSession.gameId i.
Proof.
  unfold startSession, StartSession.handler. run_action.
  destruct (locals_user context) as [user|]; simpl; [|discriminate].
  destruct (limit1 _) as [g|]; simpl; [|discriminate].
  destruct (MemoryGames.isActive g); simpl; [|discriminate].
  unfold insertSession. intros [= <- <-]. exists user. simpl. repeat split; reflexivity.
Qed.

(** What the lookup of [startSession] accepts: a game with the given id
    owned by the caller. A game without an owner never passes, as the
    comparison of its [ownerId] with [null] is not true. *)
Lemma accessible_holds gameId user g :
  holds (accessible gameId user g) = true <->
  MemoryGames.id g = gameId /\ MemoryGames.ownerId g = Some (user_id user).
Proof.
  unfold accessible.
  rewrite holds_and, holds_or, holds_eq_Z, holds_eq_string, holds_eq_null.
  rewrite orb_false_r, andb_true_iff, Z.eqb_eq.
  destruct (MemoryGames.ownerId g) as [o|].
  - rewrite String.eqb_eq. split; intros [H1 H2]; split; congruence.
  - split; intros [H1 H2]; discriminate.
Qed.

(** The requests [startSession] answers with a new session, on a table
    that respects its primary key. *)
Lemma startSession_succeeds_iff i context now db :
  gameKeys db ->
  (exists s db', startSession i context now db = (inr s, db')) <->
  (exists user g,
      locals_user context = Some user /\ In g (games db) /\
      MemoryGames.id g = StartSession.gameId i /\
      MemoryGames.ownerId g = Some (user_id user) /\
      MemoryGames.isActive g = true).
Proof.
  intros Hnd. unfold startSession, StartSession.handler. run_action.
  destruct (locals_user context) as [user|]; simpl.
  2:{ split; [intros (s & db' & H); discriminate | intros (u & g & H & _); discriminate]. }
  destruct (limit1 _) as [g|] eqn:E; simpl.
  - apply limit1_select_Some in E as [Hin Hc].
    apply accessible_holds in Hc as [Hid Ho].
    destruct (MemoryGames.isActive g) eqn:Ha; simpl.
    + split; [intros _; exists user, g; auto|]. intros _. unfold insertSession. eauto.
    + split; [intros (s & db' & H); discriminate|].
      intros (u & g' & [= <-] & Hin' & Hid' & Ho' & Ha').
      assert (g' = g); [|congruence].
      assert (Hs : select (accessible (StartSession.gameId i) user) (games db) = [g]).
      { apply (select_by_key MemoryGames.id); auto.
        - apply accessible_holds; auto.
        - intros r Hr. apply accessible_holds in Hr as [Hr _]. congruence. }
      assert (Hg' : In g' (select (accessible (StartSession.gameId i) user) (games db))).
      { apply filter_In. split; [assumption|]. apply accessible_holds; auto. }
      rewrite Hs in Hg'. destruct Hg' as [Hg'|[]]. congruence.
  - split; [intros (s & db' & H); discriminate|].
    intros (u & g & [= <-] & Hin & Hid & Ho & Ha).
    pose proof (limit1_select_None _ _ E g Hin) as Hf.
    assert (Ht : holds (accessible (StartSession.gameId i) user g) = true)
      by (apply accessible_holds; auto).
    congruence.
Qed.

(** C1, where the code departs from it: alice's request for game 1, which
    is stored, active and without owner, is answered NOT_FOUND "Game not
    available." and no session is inserted.  By
    [startSession_succeeds_iff] a session is started exactly for an active
    game that the caller owns. *)
Theorem startSession_system_owned_not_available :
  In Sample.sharedGame (games Sample.catalog) /\
  MemoryGames.ownerId Sample.sharedGame = None /\
  MemoryGames.isActive Sample.sharedGame = true /\
  startSession (StartSession.mk 1 None None) Sample.asAlice 10 Sample.catalog
  = (inl (mkError NOT_FOUND "Game not available."), Sample.catalog).
Proof. repeat split. now left. Qed.

(** ** completeSession *)

Lemma ownSession_holds id user s :
  holds (ownSession id user s) = true <->
  MemorySessions.id s = id /\ MemorySessions.userId s = user_id user.
Proof.
  unfold ownSession. rewrite holds_and, holds_eq_Z, holds_eq_string.
  now rewrite andb_true_iff, Z.eqb_eq, String.eqb_eq.
Qed.

(** The lookup of a session of the caller finds that session. *)
Lemma own_session_found db s user :
  sessionKeys db -> In s (sessions db) ->
  MemorySessions.userId s = user_id user ->
  limit1 (select (ownSession (MemorySessions.id s) user) (sessions db)) = Some s.
Proof.
  intros Hk Hin Hu.
  rewrite (select_by_key MemorySessions.id _ _ s); auto.
  - apply ownSession_holds; auto.
  - intros r Hr. now apply ownSession_holds in Hr.
Qed.

(** On a session of the caller that the client returns, [completeSession]
    rewrites that row with [CompleteSession.set]; it returns the row if the
    client returns it, and throws after the update if not. *)
Lemma completeSession_run db s user context now i :
  sessionKeys db -> In s (sessions db) ->
  locals_user context = Some user ->
  MemorySessions.userId s = user_id user ->
  CompleteSession.id i = MemorySessions.id s ->
  CompleteSession.schema i = true ->
  sessionReturns s = true ->
  completeSession i context now db =
  ((if sessionReturns (CompleteSession.set i s now s)
    then inr (Some (CompleteSession.set i s now s))
    else inl rangeError),
   mkDb (games db)
        (update (fun r => Sql.eq Z.eqb (Some (MemorySessions.id r))
                            (Some (MemorySessions.id s)))
                (CompleteSession.set i s now) (sessions db))
        (rounds db) (performance db)).
Proof.
  intros Hk Hin Hctx Hu Hid Hs Hret.
  unfold completeSession, CompleteSession.handler. run_action.
  rewrite Hs, Hctx, Hid. simpl.
  rewrite (own_session_found db s user Hk Hin Hu), Hret. simpl.
  unfold updateSessions, updated.
  rewrite (select_by_key MemorySessions.id _ _ s); auto.
  - cbn [map forallb]. rewrite andb_true_r.
    now destruct (sessionReturns (CompleteSession.set i s now s)).
  - now rewrite holds_eq_Z, Z.eqb_refl.
  - intros r. rewrite holds_eq_Z. now intros ?%Z.eqb_eq.
Qed.

(** On a session of the caller that the client does not return,
    [completeSession] throws at the lookup and writes nothing. *)
Lemma completeSession_unread db s user context now i :
  sessionKeys db -> In s (sessions db) ->
  locals_user context = Some user ->
  MemorySessions.userId s = user_id user ->
  CompleteSession.id i = MemorySessions.id s ->
  CompleteSession.schema i = true ->
  sessionReturns s = false ->
  completeSession i context now db = (inl rangeError, db).
Proof.
  intros Hk Hin Hctx Hu Hid Hs Hret.
  unfold completeSession, CompleteSession.handler. run_action.
  rewrite Hs, Hctx, Hid. simpl.
  now rewrite (own_session_found db s user Hk Hin Hu), Hret.
Qed.

Lemma set_returns i s now :
  sessionReturns (CompleteSession.set i s now s) =
  returnsInteger (nullish (CompleteSession.totalScore i) (MemorySessions.totalScore s)).
Proof. reflexivity. Qed.

Lemma set_returns_safe i s now :
  safeInteger (MemorySessions.totalScore s) = true ->
  safeGiven (CompleteSession.totalScore i) = true ->
  sessionReturns (CompleteSession.set i s now s) = true.
Proof.
  intros Hs Hi. rewrite set_returns. apply safeInteger_returns.
  unfold safeGiven in Hi. now destruct (CompleteSession.totalScore i).
Qed.

(** C2, where the code departs from it: the schema lets the integer 2^53
    in as [totalScore]; [completeSession] stores it and then throws, and
    on the session that holds it every later [completeSession] throws at
    the lookup: at time 40 the session of alice is not stamped and keeps
    the end time 20. *)
Lemma completeSession_does_not_stamp_unread_session :
  let s := MemorySessions.mk 1 2 "alice" completed (2 ^ 53) (Some "hard") 5 (Some 20) None in
  let i := CompleteSession.mk 1 None None None None in
  CompleteSession.schema Sample.unsafeTotal = true /\
  thrown (completeSession Sample.unsafeTotal Sample.asAlice 20 Sample.played)
  = Some rangeError /\
  sessions Sample.afterUnsafeTotal = [s] /\
  MemorySessions.userId s = user_id Sample.alice /\
  CompleteSession.schema i = true /\
  completeSession i Sample.asAlice 40 Sample.afterUnsafeTotal
  = (inl rangeError, Sample.afterUnsafeTotal) /\
  MemorySessions.endedAt s <> Some 40.
Proof. repeat split; try reflexivity. discriminate. Qed.

(** C2, amended: on a session of the caller whose stored [totalScore] is a
    safe integer, [completeSession] leaves the session stored with
    [endedAt] set to the current time and [status] set to the status
    given, or to [completed] when none is given, whatever that status is;
    and it returns that session when the [totalScore] given, if any, is a
    safe integer too. *)
Theorem completeSession_stamps_endedAt db s user context now i :
  sessionKeys db -> In s (sessions db) ->
  locals_user context = Some user ->
  MemorySessions.userId s = user_id user ->
  CompleteSession.id i = MemorySessions.id s ->
  CompleteSession.schema i = true ->
  safeInteger (MemorySessions.totalScore s) = true ->
  exists s',
    In s' (sessions (snd (completeSession i context now db))) /\
    MemorySessions.id s' = MemorySessions.id s /\
    MemorySessions.endedAt s' = Some now /\
    MemorySessions.status s' =
      match CompleteSession.status i with
      | Some given => given
      | None => completed
      end /\
    (safeGiven (CompleteSession.totalScore i) = true ->
     fst (completeSession i context now db) = inr (Some s')).
Proof.
  intros Hk Hin Hctx Hu Hid Hs Hsafe.
  exists (CompleteSession.set i s now s).
  rewrite (completeSession_run db s user context now i Hk Hin Hctx Hu Hid Hs
             (safeInteger_returns _ Hsafe)).
  cbn [fst snd sessions]. split; [|repeat split].
  - apply (update_In _ (CompleteSession.set i s now)); [assumption|].
    now rewrite holds_eq_Z, Z.eqb_refl.
  - intros Hi. now rewrite (set_returns_safe i s now Hsafe Hi).
Qed.

Lemma completeSession_stamps_endedAt_witness :
  let i := CompleteSession.mk 1 None None (Some in_progress) None in
  exists s',
    In s' (sessions (snd (completeSession i Sample.asAlice 20 Sample.played))) /\
    MemorySessions.id s' = 1 /\
    MemorySessions.endedAt s' = Some 20 /\
    MemorySessions.status s' = in_progress /\
    (safeGiven (CompleteSession.totalScore i) = true ->
     fst (completeSession i Sample.asAlice 20 Sample.played) = inr (Some s')).
Proof.
  apply (completeSession_stamps_endedAt Sample.played Sample.abandonedSession
           Sample.alice Sample.asAlice 20
           (CompleteSession.mk 1 None None (Some in_progress) None)).
  - repeat constructor. intros [].
  - now left.
  - reflexivity.
  - reflexivity.
  - reflexivity.
  - reflexivity.
  - reflexivity.
Defined.

(** ** What each action leaves in the database *)

Lemma createGame_effect i context now db :
  snd (createGame i context now db) = db \/
  (CreateGame.schema i = true /\
   exists g,
     MemoryGames.name g = CreateGame.name i /\
     snd (createGame i context now db)
     = mkDb (games db ++ [g]) (sessions db) (rounds db) (performance db)).
Proof.
  unfold createGame, CreateGame.handler. run_action.
  destruct (CreateGame.schema i); simpl; [|now left].
  destruct (locals_user context) as [user|]; simpl; [|now left].
  right. split; [reflexivity|]. eexists. split; [|reflexivity]. reflexivity.
Qed.

Lemma updateGame_effect i context now db :
  snd (updateGame i context now db) = db \/
  (UpdateGame.schema i = true /\
   exists user,
     snd (updateGame i context now db)
     = mkDb (update (UpdateGame.owned (UpdateGame.id i) user)
                    (UpdateGame.set (UpdateGame.updateData i)) (games db))
            (sessions db) (rounds db) (performance db)).
Proof.
  unfold updateGame, UpdateGame.handler. run_action.
  destruct (UpdateGame.schema i); simpl; [|now left].
  destruct (locals_user context) as [user|]; simpl; [|now left].
  destruct (limit1 _) as [g|]; simpl; [|now left].
  destruct (UpdateGame.updateData i) as [|e data]; simpl; [now left|].
  right. split; [reflexivity|]. now exists user.
Qed.

Lemma listMyGames_effect i context now db :
  snd (listMyGames i context now db) = db.
Proof.
  unfold listMyGames, ListMyGames.handler. run_action.
  destruct (locals_user context); reflexivity.
Qed.

Lemma startSession_effect i context now db :
  snd (startSession i context now db) = db \/
  exists s,
    snd (startSession i context now db)
    = mkDb (games db) (sessions db ++ [s]) (rounds db) (performance db).
Proof.
  unfold startSession, StartSession.handler. run_action.
  destruct (locals_user context) as [user|]; simpl; [|now left].
  destruct (limit1 _) as [g|]; simpl; [|now left].
  destruct (MemoryGames.isActive g); simpl; [|now left].
  right. eexists. reflexivity.
Qed.

Lemma completeSession_effect i context now db :
  snd (completeSession i context now db) = db \/
  exists session,
    snd (completeSession i context now db)
    = mkDb (games db)
           (update (fun s => Sql.eq Z.eqb (Some (MemorySessions.id s))
                               (Some (CompleteSession.id i)))
                   (CompleteSession.set i session now) (sessions db))
           (rounds db) (performance db).
Proof.
  unfold completeSession, CompleteSession.handler. run_action.
  destruct (CompleteSession.schema i); simpl; [|now left].
  destruct (locals_user context) as [user|]; simpl; [|now left].
  destruct (limit1 _) as [s|]; simpl; [|now left].
  destruct (sessionReturns s); simpl; [|now left].
  unfold updateSessions. right. exists s.
  now destruct (forallb _ _).
Qed.

Lemma recordRound_effect i context now db :
  snd (recordRound i context now db) = db \/
  exists r,
    snd (recordRound i context now db)
    = mkDb (games db) (sessions db) (rounds db ++ [r]) (performance db).
Proof.
  unfold recordRound, RecordRound.handler, RecordRound.notNull. run_action.
  destruct (RecordRound.schema i); simpl; [|now left].
  destruct (locals_user context) as [user|]; simpl; [|now left].
  destruct (limit1 _) as [s|]; simpl; [|now left].
  destruct (sessionReturns s); simpl; [|now left].
  destruct (json_column (RecordRound.prompt i)); simpl; [|now left].
  unfold insertRound. right. eexists. destruct (roundReturns _); reflexivity.
Qed.

(** [upsertPerformance] leaves the database as it is (it threw), or
    rewrites the rows that carry the key of the row it found for the pair,
    or, having found none, appends one row under a fresh key. *)
Lemma upsertPerformance_effect i context now db :
  snd (upsertPerformance i context now db) = db \/
  (exists user e,
     limit1 (select (UpsertPerformance.ofPair (UpsertPerformance.gameId i) user)
                    (performance db)) = Some e /\
     snd (upsertPerformance i context now db)
     = mkDb (games db) (sessions db) (rounds db)
         (update (fun p => Sql.eq Z.eqb (Some (MemoryPerformance.id p))
                             (Some (MemoryPerformance.id e)))
                 (fun p => UpsertPerformance.baseValues i user (Some e) now
                             (MemoryPerformance.id p))
                 (performance db))) \/
  (exists user,
     limit1 (select (UpsertPerformance.ofPair (UpsertPerformance.gameId i) user)
                    (performance db)) = None /\
     snd (upsertPerformance i context now db)
     = mkDb (games db) (sessions db) (rounds db)
         (performance db ++
          [UpsertPerformance.baseValues i user None now
             (nextId (map MemoryPerformance.id (performance db)))])).
Proof.
  unfold upsertPerformance, UpsertPerformance.handler. run_action.
  destruct (UpsertPerformance.schema i); simpl; [|now left].
  destruct (locals_user context) as [user|]; simpl; [|now left].
  destruct (limit1 (select (accessible _ _) _)) as [g|]; simpl; [|now left].
  destruct (limit1 (select (UpsertPerformance.ofPair _ _) _)) as [e|] eqn:E; simpl.
  - destruct (performanceReturns e); simpl; [|now left].
    unfold updatePerformance. right. left. exists user, e.
    split; [assumption|]. now destruct (forallb _ _).
  - unfold insertPerformance. right. right. exists user.
    split; [assumption|]. now destruct (performanceReturns _).
Qed.

(** ** upsertPerformance *)

Lemma ofPair_holds gameId user p :
  holds (UpsertPerformance.ofPair gameId user p) = true <->
  pairOf p = (user_id user, gameId).
Proof.
  unfold UpsertPerformance.ofPair, pairOf.
  rewrite holds_and, holds_eq_Z, holds_eq_string, andb_true_iff, Z.eqb_eq, String.eqb_eq.
  split; [intros [-> ->]; reflexivity | intros [= -> ->]; auto].
Qed.

Lemma select_first {R} (c : R -> Cond) (t : list R) (r : R) :
  In r t -> holds (c r) = true ->
  exists r' l, select c t = r' :: l /\ In r' t /\ holds (c r') = true.
Proof.
  intros Hin Hc.
  destruct (select c t) as [|r' l] eqn:E.
  - assert (H : In r (select c t)) by (apply filter_In; auto).
    rewrite E in H. destruct H.
  - exists r', l. split; [reflexivity|].
    apply (filter_In (fun r => holds (c r))). unfold select in E. rewrite E. now left.
Qed.

Lemma NoDup_map_In_eq {R K} (key : R -> K) (t : list R) (a b : R) :
  NoDup (map key t) -> In a t -> In b t -> key a = key b -> a = b.
Proof.
  induction t as [|x t IH]; simpl; intros Hnd Ha Hb Hk; [destruct Ha|].
  inversion Hnd as [|? ? Hx Hnd']; subst.
  destruct Ha as [-> | Ha], Hb as [-> | Hb]; auto.
  - exfalso. apply Hx. rewrite Hk. now apply in_map.
  - exfalso. apply Hx. rewrite <- Hk. now apply in_map.
Qed.

Lemma accessible_found db user gameId g :
  In g (games db) -> MemoryGames.id g = gameId ->
  MemoryGames.ownerId g = Some (user_id user) ->
  exists g', limit1 (select (accessible gameId user) (games db)) = Some g'.
Proof.
  intros Hin Hid Ho.
  destruct (select_first (accessible gameId user) (games db) g Hin)
    as (g' & l & -> & _); [now apply accessible_holds|]. now exists g'.
Qed.

Lemma safePerformance_returns p :
  safePerformance p = true -> performanceReturns p = true.
Proof.
  unfold safePerformance, performanceReturns.
  intros [[Ht Ha]%andb_true_iff Hb]%andb_true_iff.
  now rewrite (safeInteger_returns _ Ht), (safeNumber_returns _ Ha),
    (safeNumber_returns _ Hb).
Qed.

(** A row merged from safe numbers is a row the client returns. *)
Lemma baseValues_returns i user existing now id :
  safeUpsert i = true ->
  (forall e, existing = Some e -> safePerformance e = true) ->
  performanceReturns (UpsertPerformance.baseValues i user existing now id) = true.
Proof.
  unfold safeUpsert, safeGiven, safeGivenNumber.
  intros [[Ht Ha]%andb_true_iff Hb]%andb_true_iff He.
  apply safePerformance_returns. unfold safePerformance, UpsertPerformance.baseValues.
  cbn [MemoryPerformance.totalSessions MemoryPerformance.averageScore
       MemoryPerformance.bestScore].
  destruct existing as [e|].
  - specialize (He e Logic.eq_refl). unfold safePerformance in He.
    apply andb_true_iff in He as [[Et Ea]%andb_true_iff Eb].
    destruct (UpsertPerformance.totalSessions i), (UpsertPerformance.averageScore i),
      (UpsertPerformance.bestScore i); cbn [nullish nullish_opt UpsertPerformance.field option_map];
      rewrite ?Ht, ?Ha, ?Hb, ?Et, ?Ea, ?Eb; reflexivity.
  - destruct (UpsertPerformance.totalSessions i), (UpsertPerformance.averageScore i),
      (UpsertPerformance.bestScore i); cbn [nullish nullish_opt UpsertPerformance.field option_map];
      rewrite ?Ht, ?Ha, ?Hb; reflexivity.
Qed.

(** C3, where the code departs from it.  For the game without owner the
    lookup of the game fails, as in [startSession]: alice's request is
    answered NOT_FOUND and no row is created.  And the schema lets the
    integer 2^53 in as [totalSessions]: [upsertPerformance] stores it and
    then throws, and on the row that holds it every later
    [upsertPerformance] throws at the lookup: the second request merges
    nothing and leaves [bestScore] 0 and [updatedAt] 30. *)
Lemma upsertPerformance_does_not_merge :
  (MemoryGames.ownerId Sample.sharedGame = None /\
   upsertPerformance (UpsertPerformance.mk 1 (Some 5) None None None) Sample.asAlice 30
     Sample.catalog
   = (inl (mkError NOT_FOUND "Game not found."), Sample.catalog)) /\
  (let p := MemoryPerformance.mk 1 "alice" 2 (2 ^ 53) 0%Q 0%Q None 30 in
   UpsertPerformance.schema Sample.unsafeUpsert = true /\
   thrown (upsertPerformance Sample.unsafeUpsert Sample.asAlice 30 Sample.catalog)
   = Some rangeError /\
   performance Sample.afterUnsafeUpsert = [p] /\
   upsertPerformance Sample.secondUpsert Sample.asAlice 40 Sample.afterUnsafeUpsert
   = (inl rangeError, Sample.afterUnsafeUpsert)).
Proof. repeat split; reflexivity. Qed.

(** C3, amended: for a game the caller owns, with safe numbers in the
    input and in the row stored for the caller and the game, if there is
    one.  Where no row is stored for the pair, [upsertPerformance] appends
    and returns a row with each numeric field as supplied, else 0, and
    [difficultyPreference] as supplied, else none.  Where a row is stored
    for the pair, it rewrites that row in place and returns it with each
    numeric field as supplied, else as stored, and [difficultyPreference]
    as supplied, else as stored.  [updatedAt] is the current time in both
    cases.  A first call with only [totalSessions = 5] creates a row with
    [averageScore] and [bestScore] 0; a second call with only
    [bestScore = 90] leaves that one row with [totalSessions = 5],
    [bestScore = 90], [averageScore = 0]. *)
Theorem upsertPerformance_merges :
  (forall db user context now i g,
      performanceKeys db -> onePerPair db ->
      locals_user context = Some user ->
      UpsertPerformance.schema i = true ->
      safeUpsert i = true ->
      In g (games db) ->
      MemoryGames.id g = UpsertPerformance.gameId i ->
      MemoryGames.ownerId g = Some (user_id user) ->
      ((forall e, In e (performance db) ->
                  pairOf e <> (user_id user, UpsertPerformance.gameId i)) ->
       exists p,
         upsertPerformance i context now db
         = (inr (Some p),
            mkDb (games db) (sessions db) (rounds db) (performance db ++ [p])) /\
         pairOf p = (user_id user, UpsertPerformance.gameId i) /\
         MemoryPerformance.totalSessions p =
           match UpsertPerformance.totalSessions i with Some v => v | None => 0 end /\
         MemoryPerformance.averageScore p =
           match UpsertPerformance.averageScore i with Some v => v | None => 0%Q end /\
         MemoryPerformance.bestScore p =
           match UpsertPerformance.bestScore i with Some v => v | None => 0%Q end /\
         MemoryPerformance.difficultyPreference p
         = UpsertPerformance.difficultyPreference i /\
         MemoryPerformance.updatedAt p = now) /\
      (forall e,
          In e (performance db) ->
          pairOf e = (user_id user, UpsertPerformance.gameId i) ->
          safePerformance e = true ->
          exists p db',
            upsertPerformance i context now db = (inr (Some p), db') /\
            In p (performance db') /\
            map MemoryPerformance.id (performance db')
            = map MemoryPerformance.id (performance db) /\
            MemoryPerformance.id p = MemoryPerformance.id e /\
            pairOf p = pairOf e /\
            MemoryPerformance.totalSessions p =
              match UpsertPerformance.totalSessions i with
              | Some v => v
              | None => MemoryPerformance.totalSessions e
              end /\
            MemoryPerformance.averageScore p =
              match UpsertPerformance.averageScore i with
              | Some v => v
              | None => MemoryPerformance.averageScore e
              end /\
            MemoryPerformance.bestScore p =
              match UpsertPerformance.bestScore i with
              | Some v => v
              | None => MemoryPerformance.bestScore e
              end /\
            MemoryPerformance.difficultyPreference p =
              match UpsertPerformance.difficultyPreference i with
              | Some v => Some v
              | None => MemoryPerformance.difficultyPreference e
              end /\
            MemoryPerformance.updatedAt p = now)) /\
  (let created := MemoryPerformance.mk 1 "alice" 2 5 0%Q 0%Q None 30 in
   let merged := MemoryPerformance.mk 1 "alice" 2 5 0%Q 90%Q None 40 in
   upsertPerformance Sample.firstUpsert Sample.asAlice 30 Sample.catalog
   = (inr (Some created),
      mkDb (games Sample.catalog) [] [] [created]) /\
   upsertPerformance Sample.secondUpsert Sample.asAlice 40 Sample.afterFirstUpsert
   = (inr (Some merged),
      mkDb (games Sample.catalog) [] [] [merged])).
Proof.
  split; [|split; reflexivity].
  intros db user context now i g Hk Hp Hctx Hs Hsafe Hg Hid Ho.
  destruct (accessible_found db user _ g Hg Hid Ho) as [g' Hg'].
  unfold performanceKeys, onePerPair in *. split.
  - intros Hnone.
    assert (Hsel : select (UpsertPerformance.ofPair (UpsertPerformance.gameId i) user)
                     (performance db) = []).
    { apply select_none. intros e He. destruct (holds _) eqn:E; [|reflexivity].
      apply ofPair_holds in E. now destruct (Hnone e He). }
    unfold upsertPerformance, UpsertPerformance.handler. run_action.
    rewrite Hs, Hctx. simpl. rewrite Hg'. simpl. rewrite Hsel. simpl.
    unfold insertPerformance.
    rewrite (baseValues_returns i user None now _ Hsafe) by discriminate.
    eexists. split; [reflexivity|]. simpl.
    destruct (UpsertPerformance.totalSessions i), (UpsertPerformance.averageScore i),
      (UpsertPerformance.bestScore i), (UpsertPerformance.difficultyPreference i);
      repeat split; reflexivity.
  - intros e He Hpair Hse.
    assert (Hc : holds (UpsertPerformance.ofPair (UpsertPerformance.gameId i) user e) = true)
      by now apply ofPair_holds.
    assert (Hsel : select (UpsertPerformance.ofPair (UpsertPerformance.gameId i) user)
                     (performance db) = [e]).
    { apply (select_by pairOf); auto.
      intros r Hr. apply ofPair_holds in Hr. congruence. }
    unfold upsertPerformance, UpsertPerformance.handler. run_action.
    rewrite Hs, Hctx. simpl. rewrite Hg'. simpl. rewrite Hsel. simpl.
    rewrite (safePerformance_returns e Hse). simpl.
    unfold updatePerformance, updated.
    rewrite (select_by_key MemoryPerformance.id _ _ e Hk He).
    2:{ now rewrite holds_eq_Z, Z.eqb_refl. }
    2:{ intros r. rewrite holds_eq_Z. now intros ?%Z.eqb_eq. }
    cbn [map forallb]. rewrite andb_true_r.
    rewrite (baseValues_returns i user (Some e) now _ Hsafe)
      by (intros e' [= <-]; assumption).
    eexists _, _. split; [reflexivity|]. cbn [performance hd_error].
    split; [|split].
    + apply (update_In _ (fun p => UpsertPerformance.baseValues i user (Some e) now
                                     (MemoryPerformance.id p))); [assumption|].
      now rewrite holds_eq_Z, Z.eqb_refl.
    + apply update_map_fixed. reflexivity.
    + simpl. injection Hpair as Hu Hgid.
      destruct (UpsertPerformance.totalSessions i), (UpsertPerformance.averageScore i),
        (UpsertPerformance.bestScore i), (UpsertPerformance.difficultyPreference i);
        repeat split; try reflexivity; unfold pairOf; simpl; congruence.
Qed.

Lemma upsertPerformance_merges_witness :
  exists p db',
    upsertPerformance Sample.secondUpsert Sample.asAlice 40 Sample.afterFirstUpsert
    = (inr (Some p), db') /\
    In p (performance db') /\
    map MemoryPerformance.id (performance db') = [1] /\
    MemoryPerformance.id p = 1 /\
    pairOf p = ("alice", 2) /\
    MemoryPerformance.totalSessions p = 5 /\
    MemoryPerformance.averageScore p = 0%Q /\
    MemoryPerformance.bestScore p = 90%Q /\
    MemoryPerformance.difficultyPreference p = None /\
    MemoryPerformance.updatedAt p = 40.
Proof.
  apply (proj2 (proj1 upsertPerformance_merges Sample.afterFirstUpsert Sample.alice
                  Sample.asAlice 40 Sample.secondUpsert Sample.aliceGame
                  ltac:(repeat constructor; intros [])
                  ltac:(repeat constructor; intros [])
                  Logic.eq_refl Logic.eq_refl Logic.eq_refl
                  ltac:(right; now left) Logic.eq_refl Logic.eq_refl)
           (MemoryPerformance.mk 1 "alice" 2 5 0%Q 0%Q None 30)).
  - now left.
  - reflexivity.
  - reflexivity.
Defined.

(** ** One performance row per pair *)

(** Only [upsertPerformance] writes the performance table. *)
Lemma run_performance_frame c context now db :
  (forall i, c <> CallUpsertPerformance i) ->
  performance (run c context now db) = performance db.
Proof.
  intros Hc. destruct c as [i|i|i|i|i|i|i]; simpl.
  - destruct (createGame_effect i context now db) as [-> | (_ & g & _ & ->)]; reflexivity.
  - destruct (updateGame_effect i context now db) as [-> | (_ & u & ->)]; reflexivity.
  - now rewrite listMyGames_effect.
  - destruct (startSession_effect i context now db) as [-> | (s & ->)]; reflexivity.
  - destruct (completeSession_effect i context now db) as [-> | (s & ->)]; reflexivity.
  - destruct (recordRound_effect i context now db) as [-> | (r & ->)]; reflexivity.
  - now destruct (Hc i).
Qed.

(** [upsertPerformance] either keeps the keys and the pairs of the table
    as they are, row by row, or appends a row for a pair the table had no
    row for. *)
Lemma upsertPerformance_in_place_or_new i context now db :
  performanceKeys db ->
  let db' := run (CallUpsertPerformance i) context now db in
  (map MemoryPerformance.id (performance db') = map MemoryPerformance.id (performance db)
   /\ map pairOf (performance db') = map pairOf (performance db))
  \/ (exists p, performance db' = performance db ++ [p]
                /\ MemoryPerformance.id p = nextId (map MemoryPerformance.id (performance db))
                /\ ~ In (pairOf p) (map pairOf (performance db))).
Proof.
  intros Hk. simpl.
  destruct (upsertPerformance_effect i context now db)
    as [-> | [(user & e & He & ->) | (user & He & ->)]]; cbn [performance].
  - left. split; reflexivity.
  - left. apply limit1_select_Some in He as [Hin Hp]. apply ofPair_holds in Hp.
    split; apply update_map_fixed; intros r Hr Hc; [reflexivity|].
    rewrite holds_eq_Z in Hc. apply Z.eqb_eq in Hc.
    rewrite (NoDup_map_In_eq MemoryPerformance.id _ r e Hk Hr Hin Hc).
    now rewrite Hp.
  - right. eexists. split; [reflexivity|]. split; [reflexivity|].
    intros H. apply in_map_iff in H as (q & Hq & Hin).
    pose proof (limit1_select_None _ _ He q Hin) as Hf.
    assert (Ht : holds (UpsertPerformance.ofPair (UpsertPerformance.gameId i) user q) = true)
      by (apply ofPair_holds; rewrite Hq; reflexivity).
    congruence.
Qed.

Lemma run_keeps_performance_invariants c context now db :
  performanceKeys db -> onePerPair db ->
  performanceKeys (run c context now db) /\ onePerPair (run c context now db).
Proof.
  intros Hk Hp. unfold performanceKeys, onePerPair in *.
  destruct c as [i|i|i|i|i|i|i];
    try (rewrite run_performance_frame by (intros ?; discriminate); now split).
  destruct (upsertPerformance_in_place_or_new i context now db Hk)
    as [[-> ->] | (p & -> & Hid & Hnew)]; [now split|].
  rewrite !map_app. simpl. split; apply NoDup_snoc; auto.
  rewrite Hid. apply nextId_not_in.
Qed.

Lemma emptyDb_invariants :
  performanceKeys emptyDb /\ onePerPair emptyDb /\ namesNonEmpty emptyDb.
Proof. repeat split; try constructor. intros g []. Qed.

Lemma reachable_keeps_performance_invariants db0 db :
  performanceKeys db0 -> onePerPair db0 -> reachable db0 db ->
  performanceKeys db /\ onePerPair db.
Proof.
  intros Hk Hp Hr. induction Hr as [|db c context now Hr [IHk IHp]]; [now split|].
  now apply run_keeps_performance_invariants.
Qed.

(** C4: from a database whose performance table respects its primary key
    and has at most one row per (userId, gameId), every database that any
    sequence of requests leads to has at most one row per pair; there,
    every action other than [upsertPerformance] leaves the table as it is,
    and [upsertPerformance] either keeps the rows in place (same keys, same
    pairs) or appends one row for a pair that had none. *)
Theorem performance_one_row_per_pair db0 db :
  performanceKeys db0 -> onePerPair db0 -> reachable db0 db ->
  onePerPair db /\
  (forall c context now,
      (forall i, c <> CallUpsertPerformance i) ->
      performance (run c context now db) = performance db) /\
  (forall i context now,
      let db' := run (CallUpsertPerformance i) context now db in
      (map MemoryPerformance.id (performance db') = map MemoryPerformance.id (performance db)
       /\ map pairOf (performance db') = map pairOf (performance db))
      \/ (exists p, performance db' = performance db ++ [p]
                    /\ ~ In (pairOf p) (map pairOf (performance db)))).
Proof.
  intros Hk Hp Hr.
  destruct (reachable_keeps_performance_invariants db0 db Hk Hp Hr) as [Hk' Hp'].
  split; [assumption|]. split.
  - intros c context now. apply run_performance_frame.
  - intros i context now.
    destruct (upsertPerformance_in_place_or_new i context now db Hk')
      as [H | (p & H1 & _ & H2)]; [now left|]. right. now exists p.
Qed.

Lemma performance_one_row_per_pair_witness :
  onePerPair Sample.afterFirstUpsert /\
  (forall c context now,
      (forall i, c <> CallUpsertPerformance i) ->
      performance (run c context now Sample.afterFirstUpsert)
      = performance Sample.afterFirstUpsert) /\
  (forall i context now,
      let db' := run (CallUpsertPerformance i) context now Sample.afterFirstUpsert in
      (map MemoryPerformance.id (performance db')
       = map MemoryPerformance.id (performance Sample.afterFirstUpsert)
       /\ map pairOf (performance db') = map pairOf (performance Sample.afterFirstUpsert))
      \/ (exists p, performance db' = performance Sample.afterFirstUpsert ++ [p]
                    /\ ~ In (pairOf p) (map pairOf (performance Sample.afterFirstUpsert)))).
Proof.
  apply (performance_one_row_per_pair Sample.catalog Sample.afterFirstUpsert).
  - constructor.
  - constructor.
  - apply reachable_call. apply reachable_start.
Defined.

(** ** listMyGames *)

(** C5: for a signed-in caller, [listMyGames] returns, without writing, a
    list that includes a game exactly when the game is stored, its owner is
    the caller, and it is active or inactive games were asked for; a game
    of another user and a game without owner are never in it. *)
Theorem listMyGames_own_games db user context now i g :
  locals_user context = Some user ->
  let includeInactive :=
    match i with
    | Some o => match ListMyGames.includeInactive o with Some b => b | None => false end
    | None => false
    end in
  exists l,
    listMyGames i context now db = (inr l, db) /\
    (In g l <->
     In g (games db) /\ MemoryGames.ownerId g = Some (user_id user) /\
     (includeInactive = true \/ MemoryGames.isActive g = true)) /\
    (MemoryGames.ownerId g = None -> ~ In g l) /\
    (forall other, MemoryGames.ownerId g = Some other -> other <> user_id user ->
                   ~ In g l).
Proof.
  intros Hctx includeInactive.
  unfold listMyGames, ListMyGames.handler. run_action. rewrite Hctx. simpl.
  eexists. split; [reflexivity|].
  assert (Hiff : forall b : bool,
    In g (if b then select (fun g => Sql.eq String.eqb (MemoryGames.ownerId g)
                                       (Some (user_id user))) (games db)
          else filter MemoryGames.isActive
                 (select (fun g => Sql.eq String.eqb (MemoryGames.ownerId g)
                                     (Some (user_id user))) (games db))) <->
    In g (games db) /\ MemoryGames.ownerId g = Some (user_id user) /\
    (b = true \/ MemoryGames.isActive g = true)).
  { intros b. unfold select. destruct b; rewrite ?filter_In, holds_eq_string.
    - destruct (MemoryGames.ownerId g) as [o|].
      + rewrite String.eqb_eq. split; [intros [H ->]; auto|intros (H & [= ->] & _); auto].
      + split; [intros [_ H]; discriminate|intros (_ & H & _); discriminate].
    - destruct (MemoryGames.ownerId g) as [o|].
      + rewrite String.eqb_eq. split.
        * intros [[H ->] Ha]. auto.
        * intros (H & [= ->] & [Hb|Ha]); [discriminate|auto].
      + split; [intros [[_ H] _]; discriminate|intros (_ & H & _); discriminate]. }
  assert (Hflag : nullish (match i with
                           | Some o => ListMyGames.includeInactive o
                           | None => None
                           end) false = includeInactive)
    by (unfold includeInactive; destruct i as [[[b|]]|]; reflexivity).
  rewrite Hflag. split; [apply Hiff|]. split.
  - intros Ho Hin. apply Hiff in Hin as (_ & H & _). congruence.
  - intros other Ho Hne Hin. apply Hiff in Hin as (_ & H & _). congruence.
Qed.

Lemma listMyGames_own_games_witness :
  exists l,
    listMyGames None Sample.asAlice 10 Sample.catalog = (inr l, Sample.catalog) /\
    (In Sample.sharedGame l <->
     In Sample.sharedGame (games Sample.catalog) /\
     MemoryGames.ownerId Sample.sharedGame = Some "alice" /\
     (false = true \/ MemoryGames.isActive Sample.sharedGame = true)) /\
    (MemoryGames.ownerId Sample.sharedGame = None -> ~ In Sample.sharedGame l) /\
    (forall other, MemoryGames.ownerId Sample.sharedGame = Some other ->
                   other <> "alice" -> ~ In Sample.sharedGame l).
Proof.
  apply (listMyGames_own_games Sample.catalog Sample.alice Sample.asAlice 10 None
           Sample.sharedGame).
  reflexivity.
Defined.

(** ** recordRound *)

Lemma safeRound_returns i id sessionId p response isCorrect now :
  safeRound i = true ->
  roundReturns
    (MemoryRounds.mk id sessionId (nullish (RecordRound.roundNumber i) 1) p response
       isCorrect (nullish (RecordRound.score i) 0) now) = true.
Proof.
  unfold safeRound, safeGiven, roundReturns. intros [Hn Hs]%andb_true_iff.
  cbn [MemoryRounds.roundNumber MemoryRounds.score].
  destruct (RecordRound.roundNumber i), (RecordRound.score i); cbn [nullish];
    rewrite ?(safeInteger_returns _ Hn), ?(safeInteger_returns _ Hs); reflexivity.
Qed.

(** C6, where the code departs from it.  The schema lets the integer 2^60
    in as [score]: [recordRound] inserts the round and then throws.  And
    against the session that holds the [totalScore] 2^53 [recordRound]
    throws at the lookup and inserts nothing. *)
Lemma recordRound_does_not_succeed :
  (RecordRound.schema Sample.unsafeScore = true /\
   thrown (recordRound Sample.unsafeScore Sample.asAlice 20 Sample.played)
   = Some rangeError /\
   rounds (snd (recordRound Sample.unsafeScore Sample.asAlice 20 Sample.played))
   = [MemoryRounds.mk 1 1 1 (JArr [JNum 1%Q; JNum 2%Q; JNum 3%Q]) None false (2 ^ 60) 20]) /\
  (RecordRound.schema Sample.roundInput = true /\
   map MemorySessions.userId (sessions Sample.afterUnsafeTotal) = ["alice"] /\
   recordRound Sample.roundInput Sample.asAlice 40 Sample.afterUnsafeTotal
   = (inl rangeError, Sample.afterUnsafeTotal)).
Proof. repeat split; reflexivity. Qed.

(** C6, amended: against a session of the caller whose stored [totalScore]
    is a safe integer, whatever its status, a request that carries a prompt
    and safe integers makes [recordRound] append and return a round for
    that session, with [roundNumber] 1, [isCorrect] false and [score] 0
    where the request leaves them out. *)
Theorem recordRound_no_status_gate db s user context now i p :
  sessionKeys db -> In s (sessions db) ->
  locals_user context = Some user ->
  MemorySessions.userId s = user_id user ->
  RecordRound.sessionId i = MemorySessions.id s ->
  RecordRound.schema i = true ->
  json_column (RecordRound.prompt i) = Some p ->
  safeInteger (MemorySessions.totalScore s) = true ->
  safeRound i = true ->
  exists r,
    recordRound i context now db
    = (inr r, mkDb (games db) (sessions db) (rounds db ++ [r]) (performance db)) /\
    MemoryRounds.sessionId r = MemorySessions.id s /\
    MemoryRounds.prompt r = p /\
    MemoryRounds.roundNumber r =
      match RecordRound.roundNumber i with Some n => n | None => 1 end /\
    MemoryRounds.isCorrect r =
      match RecordRound.isCorrect i with Some b => b | None => false end /\
    MemoryRounds.score r =
      match RecordRound.score i with Some n => n | None => 0 end /\
    MemoryRounds.createdAt r = now.
Proof.
  intros Hk Hin Hctx Hu Hid Hs Hp Hsafe Hi.
  assert (Hret : sessionReturns s = true) by now apply safeInteger_returns.
  unfold recordRound, RecordRound.handler, RecordRound.notNull. run_action.
  rewrite Hs, Hctx, Hid. simpl.
  rewrite (own_session_found db s user Hk Hin Hu), Hret. simpl.
  rewrite Hp. simpl. unfold insertRound. cbv zeta. rewrite (safeRound_returns i _ _ p _ _ now Hi).
  eexists. split; [reflexivity|]. simpl.
  destruct (RecordRound.roundNumber i), (RecordRound.isCorrect i), (RecordRound.score i);
    repeat split; reflexivity.
Qed.

Lemma recordRound_no_status_gate_witness :
  MemorySessions.status Sample.abandonedSession = abandoned /\
  exists r,
    recordRound Sample.roundInput Sample.asAlice 20 Sample.played
    = (inr r, mkDb (games Sample.played) (sessions Sample.played)
                 (rounds Sample.played ++ [r]) (performance Sample.played)) /\
    MemoryRounds.sessionId r = 1 /\
    MemoryRounds.prompt r = JArr [JNum 1%Q; JNum 2%Q; JNum 3%Q] /\
    MemoryRounds.roundNumber r = 1 /\
    MemoryRounds.isCorrect r = false /\
    MemoryRounds.score r = 0 /\
    MemoryRounds.createdAt r = 20.
Proof.
  split; [reflexivity|].
  apply (recordRound_no_status_gate Sample.played Sample.abandonedSession Sample.alice
           Sample.asAlice 20 Sample.roundInput).
  - repeat constructor. intros [].
  - now left.
  - reflexivity.
  - reflexivity.
  - reflexivity.
  - reflexivity.
  - reflexivity.
  - reflexivity.
  - reflexivity.
Defined.

(** ** updateGame *)

Lemma owned_holds id user g :
  holds (UpdateGame.owned id user g) = true <->
  MemoryGames.id g = id /\ MemoryGames.ownerId g = Some (user_id user).
Proof.
  unfold UpdateGame.owned. rewrite holds_and, holds_eq_Z, holds_eq_string.
  rewrite andb_true_iff, Z.eqb_eq. destruct (MemoryGames.ownerId g) as [o|].
  - rewrite String.eqb_eq. split; intros [H1 H2]; split; congruence.
  - split; intros [H1 H2]; discriminate.
Qed.

(** C7: on a game of the caller, [updateGame] with none of [name],
    [description], [gameType], [difficultyLevels], [isActive] given returns
    that game as it is stored and leaves the database as it was. *)
Theorem updateGame_no_fields_no_write db g user context now :
  gameKeys db -> In g (games db) ->
  locals_user context = Some user ->
  MemoryGames.ownerId g = Some (user_id user) ->
  updateGame (UpdateGame.mk (MemoryGames.id g) None None None None None) context now db
  = (inr (Some g), db).
Proof.
  intros Hk Hin Hctx Ho.
  unfold updateGame, UpdateGame.handler. run_action. rewrite Hctx. simpl.
  rewrite (select_by_key MemoryGames.id _ _ g); auto.
  - apply owned_holds; auto.
  - intros r Hr. now apply owned_holds in Hr.
Qed.

Lemma updateGame_no_fields_no_write_witness :
  updateGame Sample.noFields Sample.asAlice 50 Sample.catalog
  = (inr (Some Sample.aliceGame), Sample.catalog).
Proof.
  apply (updateGame_no_fields_no_write Sample.catalog Sample.aliceGame Sample.alice
           Sample.asAlice 50).
  - repeat constructor; simpl; intuition discriminate.
  - right. now left.
  - reflexivity.
  - reflexivity.
Defined.

(** The lookup of [updateGame] fails when no game with the id is owned by
    the caller, and then nothing is written. *)
Lemma updateGame_none_owned db user context now i :
  locals_user context = Some user ->
  UpdateGame.schema i = true ->
  (forall g, In g (games db) -> MemoryGames.id g = UpdateGame.id i ->
             MemoryGames.ownerId g <> Some (user_id user)) ->
  updateGame i context now db = (inl (mkError NOT_FOUND "Game not found."), db).
Proof.
  intros Hctx Hs Hnone.
  unfold updateGame, UpdateGame.handler. run_action. rewrite Hs, Hctx. simpl.
  rewrite select_none; [reflexivity|].
  intros g Hg. destruct (holds _) eqn:E; [|reflexivity].
  apply owned_holds in E as [Hid Ho]. now destruct (Hnone g Hg Hid).
Qed.

(** C8: [updateGame] on an id that no game carries, and on the id of a
    game whose owner is not the caller, gives one and the same answer, the
    error NOT_FOUND "Game not found.", and leaves the database as it was. *)
Theorem updateGame_not_found db user context now i :
  gameKeys db ->
  locals_user context = Some user ->
  UpdateGame.schema i = true ->
  (forall g, In g (games db) -> MemoryGames.id g <> UpdateGame.id i) \/
  (exists g, In g (games db) /\ MemoryGames.id g = UpdateGame.id i /\
             MemoryGames.ownerId g <> Some (user_id user)) ->
  updateGame i context now db = (inl (mkError NOT_FOUND "Game not found."), db).
Proof.
  intros Hk Hctx Hs Hcase. apply (updateGame_none_owned db user); auto.
  intros g Hg Hid. destruct Hcase as [Hnone | (g' & Hg' & Hid' & Ho')].
  - now destruct (Hnone g Hg).
  - assert (g = g') as ->; [|assumption].
    apply (NoDup_map_In_eq MemoryGames.id (games db)); auto. congruence.
Qed.

Lemma updateGame_not_found_witness :
  updateGame Sample.clearGameType Sample.asBob 50 Sample.catalog
  = (inl (mkError NOT_FOUND "Game not found."), Sample.catalog) /\
  updateGame (UpdateGame.mk 9 None None None None (Some false)) Sample.asBob 50
    Sample.catalog
  = (inl (mkError NOT_FOUND "Game not found."), Sample.catalog).
Proof.
  assert (Hk : gameKeys Sample.catalog)
    by (repeat constructor; simpl; intuition discriminate).
  split.
  - apply (updateGame_not_found Sample.catalog Sample.bob Sample.asBob 50
             Sample.clearGameType Hk); [reflexivity | reflexivity |].
    right. exists Sample.aliceGame.
    split; [right; now left|]. split; [reflexivity | discriminate].
  - apply (updateGame_not_found Sample.catalog Sample.bob Sample.asBob 50
             (UpdateGame.mk 9 None None None None (Some false)) Hk);
      [reflexivity | reflexivity |].
    left. simpl. intros g [<- | [<- | [<- | []]]]; discriminate.
Defined.

(** ** A session keeps its user *)

(** Whatever the request, the session stored at a place keeps its id and
    its [userId]. *)
Lemma run_keeps_session_user c context now db n r :
  nth_error (sessions db) n = Some r ->
  exists r',
    nth_error (sessions (run c context now db)) n = Some r' /\
    MemorySessions.id r' = MemorySessions.id r /\
    MemorySessions.userId r' = MemorySessions.userId r.
Proof.
  intros Hn.
  assert (Hsame : forall db', sessions db' = sessions db ->
            exists r', nth_error (sessions db') n = Some r' /\
                       MemorySessions.id r' = MemorySessions.id r /\
                       MemorySessions.userId r' = MemorySessions.userId r)
    by (intros db' ->; exists r; auto).
  destruct c as [i|i|i|i|i|i|i]; simpl.
  - destruct (createGame_effect i context now db) as [-> | (_ & g & _ & ->)]; auto.
  - destruct (updateGame_effect i context now db) as [-> | (_ & u & ->)]; auto.
  - rewrite listMyGames_effect; auto.
  - destruct (startSession_effect i context now db) as [-> | (s & ->)]; auto.
    exists r. cbn [sessions]. rewrite nth_error_app1; auto.
    apply nth_error_Some. congruence.
  - destruct (completeSession_effect i context now db) as [-> | (s & ->)]; auto.
    cbn [sessions]. unfold update. rewrite nth_error_map, Hn. simpl.
    eexists. split; [reflexivity|]. destruct (holds _); auto.
  - destruct (recordRound_effect i context now db) as [-> | (x & ->)]; auto.
  - destruct (upsertPerformance_effect i context now db)
      as [-> | [(u & e & _ & ->) | (u & _ & ->)]]; auto.
Qed.

(** C9: on a session of the caller, [completeSession] leaves the session
    stored with the same [userId], [gameId] and [startedAt], and with
    [totalScore], [difficulty] and [meta] as they were wherever the request
    leaves them out; what it returns, when it returns, is that session, and
    it does return when the stored and the given [totalScore] are safe
    integers; and no request of any action changes the [userId] of a
    stored session. *)
Theorem completeSession_keeps_what_is_omitted db s user context now i :
  sessionKeys db -> In s (sessions db) ->
  locals_user context = Some user ->
  MemorySessions.userId s = user_id user ->
  CompleteSession.id i = MemorySessions.id s ->
  CompleteSession.schema i = true ->
  (exists s',
     In s' (sessions (snd (completeSession i context now db))) /\
     MemorySessions.id s' = MemorySessions.id s /\
     MemorySessions.userId s' = MemorySessions.userId s /\
     MemorySessions.gameId s' = MemorySessions.gameId s /\
     MemorySessions.startedAt s' = MemorySessions.startedAt s /\
     (CompleteSession.totalScore i = None ->
      MemorySessions.totalScore s' = MemorySessions.totalScore s) /\
     (CompleteSession.difficulty i = None ->
      MemorySessions.difficulty s' = MemorySessions.difficulty s) /\
     (CompleteSession.meta i = None ->
      MemorySessions.meta s' = MemorySessions.meta s) /\
     (forall r, fst (completeSession i context now db) = inr r -> r = Some s') /\
     (safeInteger (MemorySessions.totalScore s) = true ->
      safeGiven (CompleteSession.totalScore i) = true ->
      fst (completeSession i context now db) = inr (Some s'))) /\
  (forall c context' now' n r,
      nth_error (sessions db) n = Some r ->
      exists r',
        nth_error (sessions (run c context' now' db)) n = Some r' /\
        MemorySessions.id r' = MemorySessions.id r /\
        MemorySessions.userId r' = MemorySessions.userId r).
Proof.
  intros Hk Hin Hctx Hu Hid Hs. split.
  - destruct (sessionReturns s) eqn:Hret.
    + exists (CompleteSession.set i s now s).
      rewrite (completeSession_run db s user context now i Hk Hin Hctx Hu Hid Hs Hret).
      cbn [fst snd sessions]. split.
      { apply (update_In _ (CompleteSession.set i s now)); [assumption|].
        now rewrite holds_eq_Z, Z.eqb_refl. }
      do 4 (split; [reflexivity|]).
      do 3 (split; [intros H; simpl; rewrite H; reflexivity|]). split.
      * intros r. destruct (sessionReturns (CompleteSession.set i s now s));
          [now intros [= <-] | discriminate].
      * intros Hsafe Hi. now rewrite (set_returns_safe i s now Hsafe Hi).
    + exists s.
      rewrite (completeSession_unread db s user context now i Hk Hin Hctx Hu Hid Hs Hret).
      cbn [fst snd]. split; [assumption|].
      do 4 (split; [reflexivity|]). do 3 (split; [reflexivity|]). split.
      * discriminate.
      * intros Hsafe%safeInteger_returns. unfold sessionReturns in Hret. congruence.
  - intros c context' now' n r. apply run_keeps_session_user.
Qed.

Lemma completeSession_keeps_what_is_omitted_witness :
  let i := CompleteSession.mk 1 None None None None in
  (exists s',
     In s' (sessions (snd (completeSession i Sample.asAlice 20 Sample.played))) /\
     MemorySessions.id s' = 1 /\
     MemorySessions.userId s' = "alice" /\
     MemorySessions.gameId s' = 2 /\
     MemorySessions.startedAt s' = 5 /\
     (@None Z = None -> MemorySessions.totalScore s' = 7) /\
     (@None string = None -> MemorySessions.difficulty s' = Some "hard") /\
     (@None Json = None -> MemorySessions.meta s' = None) /\
     (forall r, fst (completeSession i Sample.asAlice 20 Sample.played) = inr r ->
                r = Some s') /\
     (safeInteger 7 = true -> safeGiven (@None Z) = true ->
      fst (completeSession i Sample.asAlice 20 Sample.played) = inr (Some s'))) /\
  (forall c context' now' n r,
      nth_error (sessions Sample.played) n = Some r ->
      exists r',
        nth_error (sessions (run c context' now' Sample.played)) n = Some r' /\
        MemorySessions.id r' = MemorySessions.id r /\
        MemorySessions.userId r' = MemorySessions.userId r).
Proof.
  apply (completeSession_keeps_what_is_omitted Sample.played Sample.abandonedSession
           Sample.alice Sample.asAlice 20 (CompleteSession.mk 1 None None None None)).
  - repeat constructor. intros [].
  - now left.
  - reflexivity.
  - reflexivity.
  - reflexivity.
  - reflexivity.
Defined.

(** ** Names and game types *)

Lemma set_name_result i g :
  MemoryGames.name (UpdateGame.set (UpdateGame.updateData i) g) =
  match UpdateGame.name i with Some n => n | None => MemoryGames.name g end.
Proof.
  unfold UpdateGame.set, UpdateGame.updateData.
  destruct (UpdateGame.name i), (UpdateGame.description i), (UpdateGame.gameType i),
    (UpdateGame.difficultyLevels i), (UpdateGame.isActive i); reflexivity.
Qed.

Lemma min1_nonempty (s : string) : (1 <=? Z.of_nat (String.length s)) = true -> s <> "".
Proof. intros H ->. discriminate. Qed.

Lemma run_keeps_names c context now db :
  namesNonEmpty db -> namesNonEmpty (run c context now db).
Proof.
  intros Hn. unfold namesNonEmpty in *.
  destruct c as [i|i|i|i|i|i|i]; simpl.
  - destruct (createGame_effect i context now db) as [-> | (Hs & g & Hg & ->)]; auto.
    cbn [games]. intros g' [H | [<- | []]]%in_app_or; auto.
    rewrite Hg. apply min1_nonempty.
    unfold CreateGame.schema in Hs. now apply andb_true_iff in Hs.
  - destruct (updateGame_effect i context now db) as [-> | (Hs & u & ->)]; auto.
    cbn [games]. unfold update. intros g' (g & <- & Hg)%in_map_iff.
    destruct (holds _); auto. rewrite set_name_result.
    unfold UpdateGame.schema in Hs. destruct (UpdateGame.name i); auto.
    now apply min1_nonempty.
  - rewrite listMyGames_effect; auto.
  - destruct (startSession_effect i context now db) as [-> | (s & ->)]; auto.
  - destruct (completeSession_effect i context now db) as [-> | (s & ->)]; auto.
  - destruct (recordRound_effect i context now db) as [-> | (x & ->)]; auto.
  - destruct (upsertPerformance_effect i context now db)
      as [-> | [(u & e & _ & ->) | (u & _ & ->)]]; auto.
Qed.

(** C10: [updateGame] accepts the empty string as [gameType] and stores it
    in a game of the caller, where [createGame] refuses it; and from a
    database in which every game has a non-empty name, no sequence of
    requests leads to a game with an empty name. *)
Theorem gameType_can_be_emptied_name_cannot :
  (let emptied := MemoryGames.mk 2 (Some "alice") "Pattern" None "" None true 0 in
   updateGame Sample.clearGameType Sample.asAlice 50 Sample.catalog
   = (inr (Some emptied),
      mkDb [Sample.sharedGame; emptied; Sample.retiredGame] [] [] []) /\
   createGame (CreateGame.mk "Pattern" None "" None None) Sample.asAlice 50 Sample.catalog
   = (inl (mkError BAD_REQUEST "Failed to validate"), Sample.catalog)) /\
  (forall db0 db, namesNonEmpty db0 -> reachable db0 db -> namesNonEmpty db).
Proof.
  split; [split; reflexivity|].
  intros db0 db H0 Hr. induction Hr as [|db c context now Hr IH]; [assumption|].
  now apply run_keeps_names.
Qed.

Lemma gameType_can_be_emptied_name_cannot_witness :
  namesNonEmpty (run (CallUpdateGame Sample.clearGameType) Sample.asAlice 50 Sample.catalog).
Proof.
  apply (proj2 gameType_can_be_emptied_name_cannot Sample.catalog).
  - intros g [<- | [<- | [<- | []]]]; discriminate.
  - apply reachable_call. apply reachable_start.
Defined.

(** * Further properties of the actions *)

(** ** Requests and their writes *)

(** Every request makes one of the writes of [Write], or none. *)
Lemma run_Write c context now db : Write db (run c context now db).
Proof.
  destruct c as [i|i|i|i|i|i|i]; simpl.
  - unfold createGame, CreateGame.handler. run_action.
    destruct (CreateGame.schema i) eqn:Hs; simpl; [|constructor].
    destruct (locals_user context) as [user|]; simpl; [|constructor].
    now apply write_createGame.
  - unfold updateGame, UpdateGame.handler. run_action.
    destruct (UpdateGame.schema i) eqn:Hs; simpl; [|constructor].
    destruct (locals_user context) as [user|]; simpl; [|constructor].
    destruct (limit1 _) as [g|]; simpl; [|constructor].
    destruct (UpdateGame.updateData i) as [|e data] eqn:Hd; simpl; [constructor|].
    rewrite <- Hd. now apply write_updateGame.
  - rewrite listMyGames_effect. constructor.
  - unfold startSession, StartSession.handler. run_action.
    destruct (locals_user context) as [user|]; simpl; [|constructor].
    destruct (limit1 _) as [g|] eqn:E; simpl; [|constructor].
    destruct (MemoryGames.isActive g) eqn:Ha; simpl; [|constructor].
    apply limit1_select_Some in E as [Hin Hc]. apply accessible_holds in Hc as [Hid Ho].
    now apply (write_startSession db i user now g).
  - unfold completeSession, CompleteSession.handler. run_action.
    destruct (CompleteSession.schema i) eqn:Hs; simpl; [|constructor].
    destruct (locals_user context) as [user|]; simpl; [|constructor].
    destruct (limit1 _) as [s|] eqn:E; simpl; [|constructor].
    destruct (sessionReturns s); simpl; [|constructor].
    apply limit1_select_Some in E as [Hin Hc]. apply ownSession_holds in Hc as [Hid Hu].
    unfold updateSessions. destruct (forallb _ _); simpl;
      now apply (write_completeSession db i user now s).
  - unfold recordRound, RecordRound.handler, RecordRound.notNull. run_action.
    destruct (RecordRound.schema i) eqn:Hs; simpl; [|constructor].
    destruct (locals_user context) as [user|]; simpl; [|constructor].
    destruct (limit1 _) as [s|] eqn:E; simpl; [|constructor].
    destruct (sessionReturns s); simpl; [|constructor].
    destruct (json_column (RecordRound.prompt i)) as [p|] eqn:Hp; simpl; [|constructor].
    apply limit1_select_Some in E as [Hin Hc]. apply ownSession_holds in Hc as [Hid Hu].
    unfold insertRound. destruct (roundReturns _); simpl;
      now apply (write_recordRound db i user now s p).
  - unfold upsertPerformance, UpsertPerformance.handler. run_action.
    destruct (UpsertPerformance.schema i) eqn:Hs; simpl; [|constructor].
    destruct (locals_user context) as [user|]; simpl; [|constructor].
    destruct (limit1 (select (accessible _ _) _)) as [g|] eqn:Eg; simpl; [|constructor].
    apply limit1_select_Some in Eg as [Hin Hc]. apply accessible_holds in Hc as [Hid Ho].
    destruct (limit1 (select (UpsertPerformance.ofPair _ _) _)) as [e|] eqn:E; simpl.
    + destruct (performanceReturns e); simpl; [|constructor].
      unfold updatePerformance. destruct (forallb _ _); simpl;
        now apply (write_updatePerformance db i user now g e).
    + unfold insertPerformance. destruct (performanceReturns _); simpl;
        now apply (write_insertPerformance db i user now g).
Qed.

(** X1: a request without a signed-in user writes nothing; it is answered
    UNAUTHORIZED when its input passes the schema, and BAD_REQUEST when it
    does not (the input is parsed before [requireUser] runs). *)
Theorem request_without_user c now db :
  answer c (mkContext None) now db =
    Some (if valid c
          then mkError UNAUTHORIZED "You must be signed in to perform this action."
          else mkError BAD_REQUEST "Failed to validate") /\
  run c (mkContext None) now db = db.
Proof.
  destruct c as [i|i|i|i|i|i|i]; simpl; unfold thrown;
    [ unfold createGame, CreateGame.handler; destruct (CreateGame.schema i) eqn:E
    | unfold updateGame, UpdateGame.handler; destruct (UpdateGame.schema i) eqn:E
    | unfold listMyGames, ListMyGames.handler
    | unfold startSession, StartSession.handler
    | unfold completeSession, CompleteSession.handler;
      destruct (CompleteSession.schema i) eqn:E
    | unfold recordRound, RecordRound.handler; destruct (RecordRound.schema i) eqn:E
    | unfold upsertPerformance, UpsertPerformance.handler;
      destruct (UpsertPerformance.schema i) eqn:E ];
    run_action; rewrite ?E; split; reflexivity.
Qed.

(** X2: a request that is answered BAD_REQUEST, UNAUTHORIZED or NOT_FOUND
    has written nothing: the schema, [requireUser] and the lookups come
    before the write of every handler.  (An INTERNAL_SERVER_ERROR can
    follow a write: the store throws it while the written row is read
    back.) *)
Theorem refused_request_writes_nothing c context now db e :
  answer c context now db = Some e ->
  code e <> INTERNAL_SERVER_ERROR ->
  run c context now db = db.
Proof.
  assert (Hrange : code rangeError <> INTERNAL_SERVER_ERROR -> False)
    by (intros H; now apply H).
  destruct c as [i|i|i|i|i|i|i]; simpl; unfold thrown.
  - unfold createGame, CreateGame.handler. run_action.
    destruct (CreateGame.schema i); simpl; [|reflexivity].
    destruct (locals_user context); simpl; [discriminate|reflexivity].
  - unfold updateGame, UpdateGame.handler. run_action.
    destruct (UpdateGame.schema i); simpl; [|reflexivity].
    destruct (locals_user context); simpl; [|reflexivity].
    destruct (limit1 _); simpl; [|reflexivity].
    destruct (UpdateGame.updateData i); simpl; [reflexivity|discriminate].
  - now rewrite listMyGames_effect.
  - unfold startSession, StartSession.handler. run_action.
    destruct (locals_user context); simpl; [|reflexivity].
    destruct (limit1 _) as [g|]; simpl; [|reflexivity].
    destruct (MemoryGames.isActive g); simpl; [discriminate|reflexivity].
  - unfold completeSession, CompleteSession.handler. run_action.
    destruct (CompleteSession.schema i); simpl; [|reflexivity].
    destruct (locals_user context); simpl; [|reflexivity].
    destruct (limit1 _) as [s|]; simpl; [|reflexivity].
    destruct (sessionReturns s); simpl; [|reflexivity].
    unfold updateSessions. destruct (forallb _ _); simpl; [discriminate|].
    intros [= <-] H. now destruct (Hrange H).
  - unfold recordRound, RecordRound.handler, RecordRound.notNull. run_action.
    destruct (RecordRound.schema i); simpl; [|reflexivity].
    destruct (locals_user context); simpl; [|reflexivity].
    destruct (limit1 _) as [s|]; simpl; [|reflexivity].
    destruct (sessionReturns s); simpl; [|reflexivity].
    destruct (json_column (RecordRound.prompt i)); simpl; [|reflexivity].
    unfold insertRound. destruct (roundReturns _); simpl; [discriminate|].
    intros [= <-] H. now destruct (Hrange H).
  - unfold upsertPerformance, UpsertPerformance.handler. run_action.
    destruct (UpsertPerformance.schema i); simpl; [|reflexivity].
    destruct (locals_user context); simpl; [|reflexivity].
    destruct (limit1 (select (accessible _ _) _)); simpl; [|reflexivity].
    destruct (limit1 (select (UpsertPerformance.ofPair _ _) _)) as [x|]; simpl.
    + destruct (performanceReturns x); simpl; [|reflexivity].
      unfold updatePerformance. destruct (forallb _ _); simpl; [discriminate|].
      intros [= <-] H. now destruct (Hrange H).
    + unfold insertPerformance. destruct (performanceReturns _); simpl; [discriminate|].
      intros [= <-] H. now destruct (Hrange H).
Qed.

Lemma refused_request_writes_nothing_witness :
  run (CallStartSession (StartSession.mk 3 None None)) Sample.asAlice 10 Sample.catalog
  = Sample.catalog.
Proof.
  apply (refused_request_writes_nothing _ _ _ _
           (mkError NOT_FOUND "Game not available.")).
  - reflexivity.
  - discriminate.
Defined.

(** ** Invariants of the tables *)

Lemma reachable_invariant (P : Db -> Prop) db0 db :
  (forall a b, Write a b -> P a -> P b) -> P db0 -> reachable db0 db -> P db.
Proof.
  intros Hstep H0 Hr. induction Hr as [|db c context now Hr IH]; [assumption|].
  apply (Hstep db); [apply run_Write | assumption].
Qed.

(** [.set(updateData)] leaves the id, the owner and the creation time of a
    game as they are. *)
Lemma set_keeps_identity data g :
  MemoryGames.id (UpdateGame.set data g) = MemoryGames.id g /\
  MemoryGames.ownerId (UpdateGame.set data g) = MemoryGames.ownerId g /\
  MemoryGames.createdAt (UpdateGame.set data g) = MemoryGames.createdAt g.
Proof.
  unfold UpdateGame.set. revert g. induction data as [|e data IH]; intros g; simpl; [auto|].
  destruct (IH (UpdateGame.assign g e)) as (-> & -> & ->). destruct e; auto.
Qed.

Lemma update_In_inv {R} (c : R -> Cond) (f : R -> R) (t : list R) (r' : R) :
  In r' (update c f t) ->
  In r' t \/ exists r, In r t /\ holds (c r) = true /\ r' = f r.
Proof.
  unfold update. intros (r & <- & Hr)%in_map_iff.
  destruct (holds (c r)) eqn:E; [right; now exists r | now left].
Qed.

Lemma Write_keys a b :
  Write a b ->
  gameKeys a /\ sessionKeys a /\ roundKeys a /\ performanceKeys a ->
  gameKeys b /\ sessionKeys b /\ roundKeys b /\ performanceKeys b.
Proof.
  unfold gameKeys, sessionKeys, roundKeys, performanceKeys.
  intros Hw (Hg & Hs & Hr & Hp). destruct Hw; cbn [games sessions rounds performance];
    repeat split; auto;
    try (rewrite map_app; apply NoDup_snoc; [assumption | apply nextId_not_in]).
  - rewrite update_map_fixed; [assumption|]. intros r _ _. apply set_keeps_identity.
  - rewrite update_map_fixed; [assumption|]. reflexivity.
  - rewrite update_map_fixed; [assumption|]. reflexivity.
Qed.

(** X3: the primary keys hold in every database that requests lead to from
    one in which they hold: no two rows of a table share an id. *)
Theorem primary_keys_are_kept db0 db :
  gameKeys db0 /\ sessionKeys db0 /\ roundKeys db0 /\ performanceKeys db0 ->
  reachable db0 db ->
  gameKeys db /\ sessionKeys db /\ roundKeys db /\ performanceKeys db.
Proof.
  intros H0 Hr.
  apply (reachable_invariant
           (fun d => gameKeys d /\ sessionKeys d /\ roundKeys d /\ performanceKeys d)
           db0 db); auto.
  intros a b Hw Ha. now apply (Write_keys a b).
Qed.

Lemma played_keys :
  gameKeys Sample.played /\ sessionKeys Sample.played /\
  roundKeys Sample.played /\ performanceKeys Sample.played.
Proof.
  unfold gameKeys, sessionKeys, roundKeys, performanceKeys. simpl.
  repeat split; repeat constructor; simpl; intuition discriminate.
Defined.

Lemma played_then_round :
  reachable Sample.played
    (run (CallRecordRound Sample.roundInput) Sample.asAlice 20 Sample.played).
Proof. apply reachable_call. apply reachable_start. Defined.

Lemma primary_keys_are_kept_witness :
  let db := run (CallRecordRound Sample.roundInput) Sample.asAlice 20 Sample.played in
  gameKeys db /\ sessionKeys db /\ roundKeys db /\ performanceKeys db.
Proof.
  apply (primary_keys_are_kept Sample.played _ played_keys played_then_round).
Defined.

Lemma Write_references a b : Write a b -> referencesHold a -> referencesHold b.
Proof.
  unfold referencesHold. intros Hw (Hs & Hr & Hp).
  destruct Hw; cbn [games sessions rounds performance].
  - auto.
  - repeat split; intros x Hx; rewrite ?map_app, ?in_app_iff; auto.
  - rewrite update_map_fixed by (intros r _ _; apply set_keeps_identity). auto.
  - repeat split; auto.
    + intros x [Hx | [<- | []]]%in_app_or; auto. simpl.
      rewrite <- H0. now apply in_map.
    + intros x Hx. rewrite map_app, in_app_iff. auto.
  - rewrite update_map_fixed by reflexivity. repeat split; auto.
    intros x [Hx | (r & Hin & _ & ->)]%update_In_inv; auto. simpl. auto.
  - repeat split; auto.
    intros x [Hx | [<- | []]]%in_app_or; auto. simpl.
    rewrite <- H1. now apply in_map.
  - repeat split; auto.
    intros x [Hx | (r & Hin & _ & ->)]%update_In_inv; auto. simpl.
    rewrite <- H1. now apply in_map.
  - repeat split; auto.
    intros x [Hx | [<- | []]]%in_app_or; auto. simpl.
    rewrite <- H1. now apply in_map.
Qed.

(** X4: the references of the tables hold in every database that requests
    lead to from one in which they hold: every session and every
    performance row names a stored game, every round a stored session. *)
Theorem references_are_kept db0 db :
  referencesHold db0 -> reachable db0 db -> referencesHold db.
Proof. apply reachable_invariant. apply Write_references. Qed.

Lemma references_are_kept_witness :
  referencesHold
    (run (CallRecordRound Sample.roundInput) Sample.asAlice 20 Sample.played).
Proof.
  apply (references_are_kept Sample.played); [|apply played_then_round].
  unfold referencesHold. simpl. repeat split.
  - intros s [<- | []]. simpl. auto.
  - intros r [].
  - intros p [].
Defined.

(** X5: no request deletes or reorders rows: each table keeps the ids it
    had, in place, and gains at most one row at its end; and a round, once
    stored, is never changed. *)
Theorem nothing_is_deleted c context now db :
  let db' := run c context now db in
  (exists new, map MemoryGames.id (games db') = map MemoryGames.id (games db) ++ new
               /\ (List.length new <= 1)%nat) /\
  (exists new, map MemorySessions.id (sessions db')
               = map MemorySessions.id (sessions db) ++ new
               /\ (List.length new <= 1)%nat) /\
  (exists new, rounds db' = rounds db ++ new /\ (List.length new <= 1)%nat) /\
  (exists new, map MemoryPerformance.id (performance db')
               = map MemoryPerformance.id (performance db) ++ new
               /\ (List.length new <= 1)%nat).
Proof.
  assert (Hnil : forall {A} (l : list A), exists new, l = l ++ new /\ (List.length new <= 1)%nat)
    by (intros A l; exists []; rewrite app_nil_r; auto).
  simpl. destruct (run_Write c context now db); cbn [games sessions rounds performance];
    rewrite ?map_app; repeat split; auto;
    try (eexists; split; [reflexivity | simpl; auto]).
  - rewrite update_map_fixed by (intros r _ _; apply set_keeps_identity). auto.
  - rewrite update_map_fixed by reflexivity. auto.
  - rewrite update_map_fixed by reflexivity. auto.
Qed.

(** X6: no request changes the id, the owner or the creation time of a
    stored game. *)
Theorem game_identity_is_fixed c context now db n g :
  nth_error (games db) n = Some g ->
  exists g',
    nth_error (games (run c context now db)) n = Some g' /\
    MemoryGames.id g' = MemoryGames.id g /\
    MemoryGames.ownerId g' = MemoryGames.ownerId g /\
    MemoryGames.createdAt g' = MemoryGames.createdAt g.
Proof.
  intros Hn.
  destruct (run_Write c context now db); cbn [games]; try (exists g; now auto).
  - exists g. rewrite nth_error_app1; auto. apply nth_error_Some. congruence.
  - unfold update. rewrite nth_error_map, Hn. simpl. eexists. split; [reflexivity|].
    destruct (holds _); auto. apply set_keeps_identity.
Qed.

Lemma game_identity_is_fixed_witness :
  exists g',
    nth_error (games (run (CallUpdateGame Sample.clearGameType) Sample.asAlice 50
                        Sample.catalog)) 1 = Some g' /\
    MemoryGames.id g' = 2 /\
    MemoryGames.ownerId g' = Some "alice" /\
    MemoryGames.createdAt g' = 0.
Proof.
  apply (game_identity_is_fixed (CallUpdateGame Sample.clearGameType) Sample.asAlice 50
           Sample.catalog 1 Sample.aliceGame).
  reflexivity.
Defined.

Lemma baseValues_inRange i user existing now id :
  UpsertPerformance.schema i = true ->
  (forall e, existing = Some e ->
             0 <= MemoryPerformance.totalSessions e /\
             (0 <= MemoryPerformance.averageScore e)%Q /\
             (0 <= MemoryPerformance.bestScore e)%Q) ->
  let p := UpsertPerformance.baseValues i user existing now id in
  0 <= MemoryPerformance.totalSessions p /\
  (0 <= MemoryPerformance.averageScore p)%Q /\
  (0 <= MemoryPerformance.bestScore p)%Q.
Proof.
  unfold UpsertPerformance.schema, UpsertPerformance.nonnegative.
  intros [[Ht Ha]%andb_true_iff Hb]%andb_true_iff He. simpl.
  assert (Hz : (0 <= 0)%Q) by apply Qle_refl.
  destruct existing as [e|]; [destruct (He e Logic.eq_refl) as (Et & Ea & Eb)|];
    destruct (UpsertPerformance.totalSessions i), (UpsertPerformance.averageScore i),
      (UpsertPerformance.bestScore i); simpl;
    repeat split; auto; try lia; try (now apply Qle_bool_iff).
Qed.

Lemma Write_inRange a b : Write a b -> inRange a -> inRange b.
Proof.
  unfold inRange. intros Hw (Hs & Hr & Hp). split; [|split].
  - intros x Hx. destruct Hw; cbn [sessions] in Hx; auto.
    + apply in_app_or in Hx as [Hx | [<- | []]]; auto. simpl. lia.
    + apply update_In_inv in Hx as [Hx | (r & Hin & _ & ->)]; auto. simpl.
      unfold CompleteSession.schema in H.
      destruct (CompleteSession.totalScore i); simpl; [lia | auto].
  - intros x Hx. destruct Hw; cbn [rounds] in Hx; auto.
    apply in_app_or in Hx as [Hx | [<- | []]]; auto. simpl.
    unfold RecordRound.schema in H. apply andb_true_iff in H as [Hn Hsc].
    destruct (RecordRound.roundNumber i), (RecordRound.score i); simpl; lia.
  - intros x Hx. destruct Hw; cbn [performance] in Hx; auto.
    + apply update_In_inv in Hx as [Hx | (r & Hin & _ & ->)]; auto.
      apply baseValues_inRange; [assumption|]. intros e' [= <-].
      apply Hp. now apply limit1_select_Some in H2.
    + apply in_app_or in Hx as [Hx | [<- | []]]; auto.
      apply baseValues_inRange; [assumption|]. discriminate.
Qed.

(** X7: what the schemas refuse never reaches the tables: from a database
    without them, no sequence of requests leads to a negative
    [totalScore], [score], [totalSessions], [averageScore] or [bestScore],
    or to a [roundNumber] below 1. *)
Theorem stored_numbers_stay_in_range db0 db :
  inRange db0 -> reachable db0 db -> inRange db.
Proof. apply reachable_invariant. apply Write_inRange. Qed.

Lemma stored_numbers_stay_in_range_witness :
  inRange (run (CallRecordRound Sample.roundInput) Sample.asAlice 20 Sample.played).
Proof.
  apply (stored_numbers_stay_in_range Sample.played); [|apply played_then_round].
  unfold inRange. simpl. repeat split.
  - intros s [<- | []]. simpl. lia.
  - destruct H.
  - destruct H.
  - destruct H.
  - destruct H.
  - destruct H.
Defined.

Lemma Write_openSessionsFresh a b :
  Write a b -> openSessionsFresh a -> openSessionsFresh b.
Proof.
  unfold openSessionsFresh. intros Hw Ha x Hx.
  destruct Hw; cbn [sessions] in Hx; auto.
  - apply in_app_or in Hx as [Hx | [<- | []]]; auto.
  - apply update_In_inv in Hx as [Hx | (r & Hin & _ & ->)]; auto. discriminate.
Qed.

(** X8: a session is given its end time by [completeSession] only, and by
    every [completeSession]: from a database in which the sessions without
    end time are [in_progress] with [totalScore] 0, as [startSession]
    inserts them, requests lead only to such databases. *)
Theorem open_sessions_are_untouched db0 db :
  openSessionsFresh db0 -> reachable db0 db -> openSessionsFresh db.
Proof. apply reachable_invariant. apply Write_openSessionsFresh. Qed.

Lemma open_sessions_are_untouched_witness :
  openSessionsFresh
    (run (CallStartSession (StartSession.mk 2 None None)) Sample.asAlice 20 Sample.played).
Proof.
  apply (open_sessions_are_untouched Sample.played).
  - intros s [<- | []]. discriminate.
  - apply reachable_call. apply reachable_start.
Defined.

(** ** updateGame on a game of the caller *)

Lemma set_applies_fields i g :
  let g' := UpdateGame.set (UpdateGame.updateData i) g in
  MemoryGames.name g' = nullish (UpdateGame.name i) (MemoryGames.name g) /\
  MemoryGames.description g' =
    nullish_opt (UpdateGame.description i) (MemoryGames.description g) /\
  MemoryGames.gameType g' = nullish (UpdateGame.gameType i) (MemoryGames.gameType g) /\
  MemoryGames.difficultyLevels g' =
    match UpdateGame.difficultyLevels i with
    | Some v => json_column (Some v)
    | None => MemoryGames.difficultyLevels g
    end /\
  MemoryGames.isActive g' = nullish (UpdateGame.isActive i) (MemoryGames.isActive g).
Proof.
  unfold UpdateGame.set, UpdateGame.updateData.
  destruct (UpdateGame.name i), (UpdateGame.description i), (UpdateGame.gameType i),
    (UpdateGame.difficultyLevels i), (UpdateGame.isActive i); simpl; auto.
Qed.

Lemma update_one {R} (key : R -> Z) (c : R -> Cond) (f : R -> R) (t : list R) (r : R) :
  NoDup (map key t) -> In r t ->
  (forall r', holds (c r') = true -> key r' = key r) ->
  forall x, In x t -> x <> r -> In x (update c f t).
Proof.
  intros Hnd Hr Hkey x Hx Hne. unfold update. apply in_map_iff. exists x.
  split; [|assumption]. destruct (holds (c x)) eqn:E; [|reflexivity].
  destruct Hne. apply (NoDup_map_In_eq key t); auto.
Qed.

(** X9: on a game of the caller, [updateGame] with at least one field
    given returns and stores the game with each given field replaced (a
    [null] for [difficultyLevels] clears it) and every other field, the
    id, the owner and the creation time as they were; the other games and
    the other tables stay as they are. *)
Theorem updateGame_applies_given_fields db g user context now i :
  gameKeys db -> In g (games db) ->
  locals_user context = Some user ->
  MemoryGames.ownerId g = Some (user_id user) ->
  UpdateGame.id i = MemoryGames.id g ->
  UpdateGame.schema i = true ->
  UpdateGame.updateData i <> [] ->
  exists g' db',
    updateGame i context now db = (inr (Some g'), db') /\
    In g' (games db') /\
    (forall x, In x (games db) -> x <> g -> In x (games db')) /\
    List.length (games db') = List.length (games db) /\
    sessions db' = sessions db /\ rounds db' = rounds db /\
    performance db' = performance db /\
    MemoryGames.id g' = MemoryGames.id g /\
    MemoryGames.ownerId g' = MemoryGames.ownerId g /\
    MemoryGames.createdAt g' = MemoryGames.createdAt g /\
    MemoryGames.name g' =
      match UpdateGame.name i with Some v => v | None => MemoryGames.name g end /\
    MemoryGames.description g' =
      match UpdateGame.description i with
      | Some v => Some v
      | None => MemoryGames.description g
      end /\
    MemoryGames.gameType g' =
      match UpdateGame.gameType i with Some v => v | None => MemoryGames.gameType g end /\
    MemoryGames.difficultyLevels g' =
      match UpdateGame.difficultyLevels i with
      | Some JNull => None
      | Some v => Some v
      | None => MemoryGames.difficultyLevels g
      end /\
    MemoryGames.isActive g' =
      match UpdateGame.isActive i with Some v => v | None => MemoryGames.isActive g end.
Proof.
  intros Hk Hin Hctx Ho Hid Hs Hd.
  assert (Hc : holds (UpdateGame.owned (MemoryGames.id g) user g) = true)
    by (apply owned_holds; auto).
  assert (Hkey : forall r, holds (UpdateGame.owned (MemoryGames.id g) user r) = true ->
                           MemoryGames.id r = MemoryGames.id g)
    by (intros r Hr; now apply owned_holds in Hr).
  unfold updateGame, UpdateGame.handler. run_action. rewrite Hs, Hctx, Hid. simpl.
  rewrite (select_by_key MemoryGames.id _ _ g Hk Hin Hc Hkey). simpl.
  destruct (UpdateGame.updateData i) as [|e data] eqn:E; [now destruct Hd|].
  rewrite <- E. unfold updateGames, updated. simpl.
  rewrite (select_by_key MemoryGames.id _ _ g Hk Hin Hc Hkey). simpl.
  eexists _, _. split; [reflexivity|]. cbn [games sessions rounds performance].
  split; [now apply update_In|].
  split; [now apply (update_one MemoryGames.id _ _ _ g)|].
  split; [unfold update; apply length_map|].
  do 3 (split; [reflexivity|]).
  destruct (set_keeps_identity (UpdateGame.updateData i) g) as (-> & -> & ->).
  destruct (set_applies_fields i g) as (-> & -> & -> & -> & ->).
  do 3 (split; [reflexivity|]).
  destruct (UpdateGame.name i), (UpdateGame.description i), (UpdateGame.gameType i),
    (UpdateGame.difficultyLevels i) as [[]|], (UpdateGame.isActive i);
    repeat split; reflexivity.
Qed.

Lemma catalog_keys : gameKeys Sample.catalog.
Proof. unfold gameKeys. simpl. repeat constructor; simpl; intuition discriminate. Defined.

Lemma updateGame_applies_given_fields_witness :
  exists g' db',
    updateGame Sample.clearGameType Sample.asAlice 50 Sample.catalog
    = (inr (Some g'), db') /\
    In g' (games db') /\
    (forall x, In x (games Sample.catalog) -> x <> Sample.aliceGame -> In x (games db')) /\
    List.length (games db') = 3%nat /\
    sessions db' = [] /\ rounds db' = [] /\ performance db' = [] /\
    MemoryGames.id g' = 2 /\
    MemoryGames.ownerId g' = Some "alice" /\
    MemoryGames.createdAt g' = 0 /\
    MemoryGames.name g' = "Pattern" /\
    MemoryGames.description g' = None /\
    MemoryGames.gameType g' = "" /\
    MemoryGames.difficultyLevels g' = None /\
    MemoryGames.isActive g' = true.
Proof.
  apply (updateGame_applies_given_fields Sample.catalog Sample.aliceGame Sample.alice
           Sample.asAlice 50 Sample.clearGameType catalog_keys).
  - right. now left.
  - reflexivity.
  - reflexivity.
  - reflexivity.
  - reflexivity.
  - discriminate.
Defined.

(** ** Sessions of the caller and of others *)

(** X10: [completeSession] and [recordRound] on an id that no session of
    the caller carries, whether no session has it or a session of
    another user, answer NOT_FOUND "Session not found." and write
    nothing. *)
Theorem session_of_another_is_not_found db user context now id :
  locals_user context = Some user ->
  (forall s, In s (sessions db) -> MemorySessions.id s = id ->
             MemorySessions.userId s <> user_id user) ->
  (forall i, CompleteSession.id i = id -> CompleteSession.schema i = true ->
             completeSession i context now db
             = (inl (mkError NOT_FOUND "Session not found."), db)) /\
  (forall i, RecordRound.sessionId i = id -> RecordRound.schema i = true ->
             recordRound i context now db
             = (inl (mkError NOT_FOUND "Session not found."), db)).
Proof.
  intros Hctx Hnone.
  assert (Hsel : select (ownSession id user) (sessions db) = []).
  { apply select_none. intros s Hs. destruct (holds _) eqn:E; [|reflexivity].
    apply ownSession_holds in E as [Hid Hu]. now destruct (Hnone s Hs Hid). }
  split; intros i Hid Hs.
  - unfold completeSession, CompleteSession.handler. run_action.
    now rewrite Hs, Hctx, Hid, Hsel.
  - unfold recordRound, RecordRound.handler. run_action.
    now rewrite Hs, Hctx, Hid, Hsel.
Qed.

Lemma session_of_another_is_not_found_witness :
  (forall i, CompleteSession.id i = 1 -> CompleteSession.schema i = true ->
             completeSession i Sample.asBob 20 Sample.played
             = (inl (mkError NOT_FOUND "Session not found."), Sample.played)) /\
  (forall i, RecordRound.sessionId i = 1 -> RecordRound.schema i = true ->
             recordRound i Sample.asBob 20 Sample.played
             = (inl (mkError NOT_FOUND "Session not found."), Sample.played)).
Proof.
  apply (session_of_another_is_not_found Sample.played Sample.bob Sample.asBob 20 1).
  - reflexivity.
  - intros s [<- | []] _. discriminate.
Defined.

(** X11: [completeSession] on a session of the caller rewrites that one
    row: the other sessions, of the caller and of others, and the three
    other tables stay as they are. *)
Theorem completeSession_rewrites_one_row db s user context now i :
  sessionKeys db -> In s (sessions db) ->
  locals_user context = Some user ->
  MemorySessions.userId s = user_id user ->
  CompleteSession.id i = MemorySessions.id s ->
  CompleteSession.schema i = true ->
  let db' := snd (completeSession i context now db) in
  games db' = games db /\ rounds db' = rounds db /\ performance db' = performance db /\
  List.length (sessions db') = List.length (sessions db) /\
  (forall x, In x (sessions db) -> x <> s -> In x (sessions db')).
Proof.
  intros Hk Hin Hctx Hu Hid Hs. destruct (sessionReturns s) eqn:Hret.
  - rewrite (completeSession_run db s user context now i Hk Hin Hctx Hu Hid Hs Hret).
    cbn [snd games sessions rounds performance]. do 3 (split; [reflexivity|]).
    split; [unfold update; apply length_map|].
    apply (update_one MemorySessions.id _ _ _ s); auto.
    intros r. rewrite holds_eq_Z. now intros ?%Z.eqb_eq.
  - rewrite (completeSession_unread db s user context now i Hk Hin Hctx Hu Hid Hs Hret).
    cbn [snd]. repeat split; auto.
Qed.

Lemma completeSession_rewrites_one_row_witness :
  let db' := snd (completeSession (CompleteSession.mk 1 (Some 9) None None None)
                    Sample.asAlice 20 Sample.played) in
  games db' = games Sample.played /\ rounds db' = rounds Sample.played /\
  performance db' = performance Sample.played /\
  List.length (sessions db') = List.length (sessions Sample.played) /\
  (forall x, In x (sessions Sample.played) -> x <> Sample.abandonedSession ->
             In x (sessions db')).
Proof.
  apply (completeSession_rewrites_one_row Sample.played Sample.abandonedSession
           Sample.alice Sample.asAlice 20 (CompleteSession.mk 1 (Some 9) None None None)).
  - apply played_keys.
  - now left.
  - reflexivity.
  - reflexivity.
  - reflexivity.
  - reflexivity.
Defined.

(** ** Which requests are served *)

(** X12: on a table that respects its primary key, [startSession] is
    served exactly when the caller is signed in and owns an active game
    with the given id; of a game without owner, of a game of another user
    and of an inactive game it says "Game not available.". *)
Theorem startSession_served_iff i context now db :
  gameKeys db ->
  (answer (CallStartSession i) context now db = None <->
   exists user g,
     locals_user context = Some user /\ In g (games db) /\
     MemoryGames.id g = StartSession.gameId i /\
     MemoryGames.ownerId g = Some (user_id user) /\
     MemoryGames.isActive g = true) /\
  (forall e, answer (CallStartSession i) context now db = Some e ->
             locals_user context <> None ->
             e = mkError NOT_FOUND "Game not available.").
Proof.
  intros Hk. split.
  - rewrite <- (startSession_succeeds_iff i context now db Hk).
    simpl. unfold thrown. destruct (startSession i context now db) as [[e|s] db'].
    + split; [discriminate | intros (s & d & H); discriminate].
    + split; [intros _; eauto | reflexivity].
  - simpl. unfold thrown, startSession, StartSession.handler. run_action.
    intros e. destruct (locals_user context) as [user|]; simpl; [|now intros _ []].
    destruct (limit1 _) as [g|]; simpl; [|now intros [= <-]].
    destruct (MemoryGames.isActive g); simpl; [discriminate | now intros [= <-]].
Qed.

Lemma startSession_served_iff_witness :
  (answer (CallStartSession (StartSession.mk 3 None None)) Sample.asAlice 10
     Sample.catalog = None <->
   exists user g,
     locals_user Sample.asAlice = Some user /\ In g (games Sample.catalog) /\
     MemoryGames.id g = 3 /\
     MemoryGames.ownerId g = Some (user_id user) /\
     MemoryGames.isActive g = true) /\
  (forall e, answer (CallStartSession (StartSession.mk 3 None None)) Sample.asAlice 10
               Sample.catalog = Some e ->
             locals_user Sample.asAlice <> None ->
             e = mkError NOT_FOUND "Game not available.").
Proof.
  apply (startSession_served_iff (StartSession.mk 3 None None) Sample.asAlice 10
           Sample.catalog catalog_keys).
Defined.

Lemma forallb_map_all {A B} (f : A -> B) (t : B -> bool) (l : list A) :
  (forall x, t (f x) = true) -> forallb t (map f l) = true.
Proof. intros H. induction l as [|x l IH]; simpl; [reflexivity|]. now rewrite H, IH. Qed.

(** X13: [upsertPerformance] is answered NOT_FOUND "Game not found."
    exactly when its input passes the schema and the caller is signed in
    and owns no game with the given id; with safe numbers in the input and
    in the table, it is served exactly when the input passes the schema and
    the caller is signed in and owns a game with the given id.  Whether
    that game is active is not looked at. *)
Theorem upsertPerformance_served_iff i context now db :
  (answer (CallUpsertPerformance i) context now db
   = Some (mkError NOT_FOUND "Game not found.") <->
   UpsertPerformance.schema i = true /\
   exists user,
     locals_user context = Some user /\
     forall g, In g (games db) -> MemoryGames.id g = UpsertPerformance.gameId i ->
               MemoryGames.ownerId g <> Some (user_id user)) /\
  (safeUpsert i = true ->
   (forall e, In e (performance db) -> safePerformance e = true) ->
   (answer (CallUpsertPerformance i) context now db = None <->
    UpsertPerformance.schema i = true /\
    exists user g,
      locals_user context = Some user /\ In g (games db) /\
      MemoryGames.id g = UpsertPerformance.gameId i /\
      MemoryGames.ownerId g = Some (user_id user))).
Proof.
  simpl. unfold thrown, upsertPerformance, UpsertPerformance.handler. run_action.
  destruct (UpsertPerformance.schema i); simpl.
  2:{ split; [|intros _ _]; (split; [discriminate | intros [H _]; discriminate]). }
  destruct (locals_user context) as [user|]; simpl.
  2:{ split; [|intros _ _]; split; try discriminate.
      - intros (_ & u & H & _). discriminate.
      - intros (_ & u & g & H & _). discriminate. }
  destruct (limit1 (select (accessible _ _) _)) as [g|] eqn:Eg; simpl.
  - apply limit1_select_Some in Eg as [Hin Hc]. apply accessible_holds in Hc as [Hid Ho].
    split.
    + split.
      * destruct (limit1 (select (UpsertPerformance.ofPair _ _) _)) as [e|]; simpl.
        -- destruct (performanceReturns e); simpl; [|discriminate].
           unfold updatePerformance. destruct (forallb _ _); discriminate.
        -- unfold insertPerformance. destruct (performanceReturns _); discriminate.
      * intros (_ & u & [= <-] & Hnone). now destruct (Hnone g Hin Hid).
    + intros Hsafe Hstored. split; [intros _; split; [reflexivity | exists user, g; auto]|].
      intros _.
      destruct (limit1 (select (UpsertPerformance.ofPair _ _) _)) as [e|] eqn:E; simpl.
      * apply limit1_select_Some in E as [He _].
        rewrite (safePerformance_returns e (Hstored e He)). simpl.
        unfold updatePerformance, updated. rewrite forallb_map_all; [reflexivity|].
        intros x. apply baseValues_returns; [assumption|]. intros e' [= <-]. auto.
      * unfold insertPerformance.
        rewrite (baseValues_returns i user None now _ Hsafe) by discriminate.
        reflexivity.
  - split.
    + split; [intros _; split; [reflexivity|] | reflexivity].
      exists user. split; [reflexivity|]. intros g Hg Hid Ho.
      pose proof (limit1_select_None _ _ Eg g Hg) as Hf.
      assert (Ht : holds (accessible (UpsertPerformance.gameId i) user g) = true)
        by (apply accessible_holds; auto).
      congruence.
    + intros _ _. split; [discriminate|]. intros (_ & u & g & [= <-] & Hin & Hid & Ho).
      pose proof (limit1_select_None _ _ Eg g Hin) as Hf.
      assert (Ht : holds (accessible (UpsertPerformance.gameId i) user g) = true)
        by (apply accessible_holds; auto).
      congruence.
Qed.

Lemma upsertPerformance_served_iff_witness :
  answer (CallUpsertPerformance (UpsertPerformance.mk 3 None None (Some 90%Q) None))
    Sample.asAlice 40 Sample.afterFirstUpsert = None <->
  UpsertPerformance.schema (UpsertPerformance.mk 3 None None (Some 90%Q) None) = true /\
  exists user g,
    locals_user Sample.asAlice = Some user /\ In g (games Sample.afterFirstUpsert) /\
    MemoryGames.id g = 3 /\
    MemoryGames.ownerId g = Some (user_id user).
Proof.
  apply (proj2 (upsertPerformance_served_iff
                  (UpsertPerformance.mk 3 None None (Some 90%Q) None)
                  Sample.asAlice 40 Sample.afterFirstUpsert)).
  - reflexivity.
  - intros e [<- | []]. reflexivity.
Defined.

(** ** upsertPerformance, repeated *)

(** The database after [upsertPerformance], by the checks of the
    handler. *)
Lemma upsertPerformance_run i context now db :
  run (CallUpsertPerformance i) context now db =
  match UpsertPerformance.schema i, locals_user context with
  | true, Some user =>
      match limit1 (select (accessible (UpsertPerformance.gameId i) user) (games db)) with
      | Some _ =>
          match limit1 (select (UpsertPerformance.ofPair (UpsertPerformance.gameId i) user)
                               (performance db)) with
          | Some e =>
              if performanceReturns e then
                mkDb (games db) (sessions db) (rounds db)
                  (update (fun p => Sql.eq Z.eqb (Some (MemoryPerformance.id p))
                                      (Some (MemoryPerformance.id e)))
                          (fun p => UpsertPerformance.baseValues i user (Some e) now
                                      (MemoryPerformance.id p))
                          (performance db))
              else db
          | None =>
              mkDb (games db) (sessions db) (rounds db)
                (performance db ++
                 [UpsertPerformance.baseValues i user None now
                    (nextId (map MemoryPerformance.id (performance db)))])
          end
      | None => db
      end
  | _, _ => db
  end.
Proof.
  simpl. unfold upsertPerformance, UpsertPerformance.handler. run_action.
  destruct (UpsertPerformance.schema i); simpl; [|reflexivity].
  destruct (locals_user context) as [user|]; simpl; [|reflexivity].
  destruct (limit1 (select (accessible _ _) _)); simpl; [|reflexivity].
  destruct (limit1 (select (UpsertPerformance.ofPair _ _) _)) as [e|]; simpl.
  - destruct (performanceReturns e); simpl; [|reflexivity].
    unfold updatePerformance. now destruct (forallb _ _).
  - unfold insertPerformance. now destruct (performanceReturns _).
Qed.

(** A row merged from safe numbers and from a row the client returns is a
    row the client returns. *)
Lemma baseValues_returns_read i user existing now id :
  safeUpsert i = true ->
  (forall e, existing = Some e -> performanceReturns e = true) ->
  performanceReturns (UpsertPerformance.baseValues i user existing now id) = true.
Proof.
  unfold safeUpsert, safeGiven, safeGivenNumber.
  intros [[Ht Ha]%andb_true_iff Hb]%andb_true_iff He.
  unfold performanceReturns at 1. unfold UpsertPerformance.baseValues.
  cbn [MemoryPerformance.totalSessions MemoryPerformance.averageScore
       MemoryPerformance.bestScore].
  destruct existing as [e|].
  - specialize (He e Logic.eq_refl). unfold performanceReturns in He.
    apply andb_true_iff in He as [[Et Ea]%andb_true_iff Eb].
    destruct (UpsertPerformance.totalSessions i), (UpsertPerformance.averageScore i),
      (UpsertPerformance.bestScore i);
      cbn [nullish nullish_opt UpsertPerformance.field option_map];
      rewrite ?(safeInteger_returns _ Ht), ?(safeNumber_returns _ Ha),
        ?(safeNumber_returns _ Hb), ?Et, ?Ea, ?Eb; reflexivity.
  - destruct (UpsertPerformance.totalSessions i), (UpsertPerformance.averageScore i),
      (UpsertPerformance.bestScore i);
      cbn [nullish nullish_opt UpsertPerformance.field option_map];
      rewrite ?(safeInteger_returns _ Ht), ?(safeNumber_returns _ Ha),
        ?(safeNumber_returns _ Hb); reflexivity.
Qed.

(** Merging the input into a row that the same input was merged into gives
    what merging it once gives. *)
Lemma baseValues_absorbs i user existing now1 now2 id1 id2 :
  UpsertPerformance.baseValues i user
    (Some (UpsertPerformance.baseValues i user existing now1 id1)) now2 id2
  = UpsertPerformance.baseValues i user existing now2 id2.
Proof.
  unfold UpsertPerformance.baseValues.
  destruct (UpsertPerformance.totalSessions i), (UpsertPerformance.averageScore i),
    (UpsertPerformance.bestScore i), (UpsertPerformance.difficultyPreference i),
    existing; reflexivity.
Qed.

Lemma select_app {R} (c : R -> Cond) (t u : list R) :
  select c (t ++ u) = select c t ++ select c u.
Proof. apply filter_app. Qed.

Lemma limit1_select_None_nil {R} (c : R -> Cond) (t : list R) :
  limit1 (select c t) = None -> select c t = [].
Proof. rewrite limit1_hd. now destruct (select c t). Qed.

Lemma update_twice {R} (c : R -> Cond) (f g h : R -> R) (t : list R) :
  (forall r, In r t -> holds (c r) = true ->
             holds (c (f r)) = true /\ g (f r) = h r) ->
  update c g (update c f t) = update c h t.
Proof.
  intros H. unfold update. rewrite map_map. apply map_ext_in. intros r Hr.
  destruct (holds (c r)) eqn:E.
  - destruct (H r Hr E) as [-> ->]. reflexivity.
  - now rewrite E.
Qed.

Lemma update_none {R} (c : R -> Cond) (f : R -> R) (t : list R) :
  (forall r, In r t -> holds (c r) = false) -> update c f t = t.
Proof.
  intros H. unfold update. rewrite <- (map_id t) at 2. apply map_ext_in.
  intros r Hr. now rewrite (H r Hr).
Qed.

Lemma update_app {R} (c : R -> Cond) (f : R -> R) (t u : list R) :
  update c f (t ++ u) = update c f t ++ update c f u.
Proof. apply map_app. Qed.

(** X14: with safe numbers in the input, an [upsertPerformance] after the
    same [upsertPerformance] by the same caller leaves what it alone would
    have left: the second request finds the row of the first and merges
    the same input into it, so that only [updatedAt] moves, and no second
    row appears. *)
Theorem upsertPerformance_absorbs_itself i context now1 now2 db :
  performanceKeys db -> onePerPair db ->
  safeUpsert i = true ->
  run (CallUpsertPerformance i) context now2
    (run (CallUpsertPerformance i) context now1 db)
  = run (CallUpsertPerformance i) context now2 db.
Proof.
  intros Hk Hp Hsafe. unfold performanceKeys, onePerPair in *.
  rewrite (upsertPerformance_run i context now1 db).
  destruct (UpsertPerformance.schema i) eqn:Hs; [|reflexivity].
  destruct (locals_user context) as [user|] eqn:Hctx; [|reflexivity].
  destruct (limit1 (select (accessible _ _) _)) as [g|] eqn:Eg; [|reflexivity].
  destruct (limit1 (select (UpsertPerformance.ofPair _ _) _)) as [e|] eqn:E.
  - destruct (performanceReturns e) eqn:Hret; [|reflexivity].
    rewrite !upsertPerformance_run, Hs, Hctx.
    cbn [games sessions rounds performance]. rewrite Eg, E, Hret.
    pose proof (limit1_select_Some _ _ _ E) as [Hin He].
    set (c := fun p => Sql.eq Z.eqb (Some (MemoryPerformance.id p))
                         (Some (MemoryPerformance.id e))).
    set (f1 := fun p => UpsertPerformance.baseValues i user (Some e) now1
                          (MemoryPerformance.id p)).
    assert (Hc : holds (c e) = true) by (unfold c; now rewrite holds_eq_Z, Z.eqb_refl).
    assert (Hsel : select (UpsertPerformance.ofPair (UpsertPerformance.gameId i) user)
                     (update c f1 (performance db)) = [f1 e]).
    { apply (select_by pairOf).
      - rewrite update_map_fixed; [assumption|]. intros r Hr Hcr.
        unfold c in Hcr. rewrite holds_eq_Z in Hcr. apply Z.eqb_eq in Hcr.
        rewrite (NoDup_map_In_eq MemoryPerformance.id _ r e Hk Hr Hin Hcr).
        apply ofPair_holds in He. now rewrite He.
      - now apply update_In.
      - now apply ofPair_holds.
      - intros r Hr. now apply ofPair_holds in Hr. }
    assert (Hret1 : performanceReturns (f1 e) = true).
    { apply baseValues_returns_read; [assumption|]. now intros e' [= <-]. }
    rewrite Hsel. cbn [limit1 firstn hd_error]. rewrite Hret1. f_equal.
    apply update_twice. intros r Hr Hcr. split.
    + unfold c in *. now rewrite holds_eq_Z in *.
    + unfold f1. simpl. apply baseValues_absorbs.
  - rewrite !upsertPerformance_run, Hs, Hctx.
    cbn [games sessions rounds performance]. rewrite Eg, E.
    set (p1 := UpsertPerformance.baseValues i user None now1
                 (nextId (map MemoryPerformance.id (performance db)))).
    rewrite select_app, (limit1_select_None_nil _ _ E).
    assert (Hp1 : select (UpsertPerformance.ofPair (UpsertPerformance.gameId i) user) [p1]
                  = [p1]).
    { unfold select. simpl.
      assert (H : holds (UpsertPerformance.ofPair (UpsertPerformance.gameId i) user p1)
                  = true) by now apply ofPair_holds.
      now rewrite H. }
    assert (Hret1 : performanceReturns p1 = true).
    { apply baseValues_returns_read; [assumption|]. discriminate. }
    rewrite Hp1. cbn [app limit1 firstn hd_error]. rewrite Hret1. f_equal.
    rewrite update_app, update_none.
    + unfold update. simpl. rewrite holds_eq_Z, Z.eqb_refl. f_equal. f_equal.
      apply baseValues_absorbs.
    + intros r Hr. rewrite holds_eq_Z. apply Z.eqb_neq. intros Heq.
      apply (nextId_not_in (map MemoryPerformance.id (performance db))).
      simpl in Heq. rewrite <- Heq. now apply in_map.
Qed.

Lemma upsertPerformance_absorbs_itself_witness :
  run (CallUpsertPerformance Sample.firstUpsert) Sample.asAlice 40
    (run (CallUpsertPerformance Sample.firstUpsert) Sample.asAlice 30 Sample.catalog)
  = run (CallUpsertPerformance Sample.firstUpsert) Sample.asAlice 40 Sample.catalog.
Proof.
  apply (upsertPerformance_absorbs_itself Sample.firstUpsert Sample.asAlice 30 40
           Sample.catalog).
  - constructor.
  - constructor.
  - reflexivity.
Defined.

(** X15: after [upsertPerformance] has returned a row, the rows of the
    table for the caller and the game are that row and no other: what was
    written is what the next lookup for the pair finds. *)
Theorem upsertPerformance_then_lookup db user context now i p db' :
  performanceKeys db -> onePerPair db ->
  locals_user context = Some user ->
  upsertPerformance i context now db = (inr (Some p), db') ->
  select (UpsertPerformance.ofPair (UpsertPerformance.gameId i) user) (performance db')
  = [p].
Proof.
  unfold performanceKeys, onePerPair. intros Hk Hp Hctx.
  unfold upsertPerformance, UpsertPerformance.handler. run_action.
  destruct (UpsertPerformance.schema i); simpl; [|discriminate].
  rewrite Hctx. simpl.
  destruct (limit1 (select (accessible _ _) _)) as [g|]; simpl; [|discriminate].
  destruct (limit1 (select (UpsertPerformance.ofPair _ _) _)) as [e|] eqn:E; simpl.
  - pose proof (limit1_select_Some _ _ _ E) as [Hin He].
    destruct (performanceReturns e); simpl; [|discriminate].
    unfold updatePerformance, updated.
    rewrite (select_by_key MemoryPerformance.id _ _ e Hk Hin).
    + cbn [map forallb]. destruct (performanceReturns _ && true); simpl; [|discriminate].
      intros [= <- <-]. cbn [performance]. apply (select_by pairOf).
      * rewrite update_map_fixed; [assumption|]. intros r Hr Hcr.
        rewrite holds_eq_Z in Hcr. apply Z.eqb_eq in Hcr.
        rewrite (NoDup_map_In_eq MemoryPerformance.id _ r e Hk Hr Hin Hcr).
        apply ofPair_holds in He. now rewrite He.
      * apply (update_In _ (fun p => UpsertPerformance.baseValues i user (Some e) now
                                       (MemoryPerformance.id p))); [assumption|].
        now rewrite holds_eq_Z, Z.eqb_refl.
      * now apply ofPair_holds.
      * intros r Hr. now apply ofPair_holds in Hr.
    + now rewrite holds_eq_Z, Z.eqb_refl.
    + intros r. rewrite holds_eq_Z. now intros ?%Z.eqb_eq.
  - unfold insertPerformance. destruct (performanceReturns _); simpl; [|discriminate].
    intros [= <- <-]. cbn [performance].
    rewrite select_app, (limit1_select_None_nil _ _ E). unfold select. simpl.
    assert (H : holds (UpsertPerformance.ofPair (UpsertPerformance.gameId i) user
                         (UpsertPerformance.baseValues i user None now
                            (nextId (map MemoryPerformance.id (performance db))))) = true)
      by now apply ofPair_holds.
    now rewrite H.
Qed.

Lemma upsertPerformance_then_lookup_witness :
  select (UpsertPerformance.ofPair 2 Sample.alice) (performance Sample.afterFirstUpsert)
  = [MemoryPerformance.mk 1 "alice" 2 5 0%Q 0%Q None 30].
Proof.
  apply (upsertPerformance_then_lookup Sample.catalog Sample.alice Sample.asAlice 30
           Sample.firstUpsert).
  - constructor.
  - constructor.
  - reflexivity.
  - reflexivity.
Defined.

(** ** From createGame to the other actions *)

Lemma startSession_none_owned db user context now i :
  locals_user context = Some user ->
  (forall g, In g (games db) -> MemoryGames.id g = StartSession.gameId i ->
             MemoryGames.ownerId g <> Some (user_id user)) ->
  startSession i context now db = (inl (mkError NOT_FOUND "Game not available."), db).
Proof.
  intros Hctx Hnone.
  unfold startSession, StartSession.handler. run_action. rewrite Hctx. simpl.
  rewrite select_none; [reflexivity|].
  intros g Hg. destruct (holds _) eqn:E; [|reflexivity].
  apply accessible_holds in E as [Hid Ho]. now destruct (Hnone g Hg Hid).
Qed.

(** X16: a game that [createGame] has returned is stored last, under an id
    no other game has, owned by the caller and active unless the input
    says otherwise.  The caller finds it with [listMyGames] (among all his
    games always, among the active ones unless it was created inactive);
    to any other user, [updateGame] and [startSession] on its id say
    NOT_FOUND and write nothing. *)
Theorem created_game_is_the_callers db user context now i g db' :
  gameKeys db ->
  locals_user context = Some user ->
  createGame i context now db = (inr g, db') ->
  games db' = games db ++ [g] /\
  gameKeys db' /\
  MemoryGames.ownerId g = Some (user_id user) /\
  MemoryGames.isActive g =
    match CreateGame.isActive i with Some b => b | None => true end /\
  (forall now',
      exists l, listMyGames (Some (ListMyGames.mk (Some true))) context now' db'
                = (inr l, db') /\ In g l) /\
  (forall now',
      exists l, listMyGames None context now' db' = (inr l, db') /\
                (In g l <-> CreateGame.isActive i <> Some false)) /\
  (forall other context' now' j,
      locals_user context' = Some other -> user_id other <> user_id user ->
      UpdateGame.id j = MemoryGames.id g -> UpdateGame.schema j = true ->
      updateGame j context' now' db'
      = (inl (mkError NOT_FOUND "Game not found."), db')) /\
  (forall other context' now' j,
      locals_user context' = Some other -> user_id other <> user_id user ->
      StartSession.gameId j = MemoryGames.id g ->
      startSession j context' now' db'
      = (inl (mkError NOT_FOUND "Game not available."), db')).
Proof.
  unfold gameKeys. intros Hk Hctx.
  unfold createGame, CreateGame.handler. run_action.
  destruct (CreateGame.schema i); simpl; [|discriminate].
  rewrite Hctx. simpl. unfold insertGame. intros [= <- <-].
  set (g := MemoryGames.mk _ _ _ _ _ _ _ _).
  cbn [games].
  assert (Hk' : NoDup (map MemoryGames.id (games db ++ [g]))).
  { rewrite map_app. apply NoDup_snoc; [assumption|]. apply nextId_not_in. }
  assert (Hin : In g (games db ++ [g])) by (apply in_or_app; right; now left).
  assert (Hown : holds (Sql.eq String.eqb (MemoryGames.ownerId g) (Some (user_id user)))
                 = true) by (rewrite holds_eq_string; simpl; apply String.eqb_refl).
  assert (Hother : forall other x,
            user_id other <> user_id user -> In x (games db ++ [g]) ->
            MemoryGames.id x = MemoryGames.id g ->
            MemoryGames.ownerId x <> Some (user_id other)).
  { intros other x Hne Hx Hid.
    rewrite (NoDup_map_In_eq MemoryGames.id _ x g Hk' Hx Hin Hid). simpl. congruence. }
  split; [reflexivity|]. split; [assumption|]. split; [reflexivity|].
  split; [subst g; simpl; now destruct (CreateGame.isActive i)|].
  split; [|split; [|split]].
  - intros now'. unfold listMyGames, ListMyGames.handler. run_action. rewrite Hctx.
    simpl. eexists. split; [reflexivity|].
    apply (filter_In (fun r => holds (Sql.eq String.eqb (MemoryGames.ownerId r)
                                        (Some (user_id user))))). auto.
  - intros now'. unfold listMyGames, ListMyGames.handler. run_action. rewrite Hctx.
    simpl. eexists. split; [reflexivity|].
    rewrite filter_In. unfold select.
    rewrite (filter_In (fun r => holds (Sql.eq String.eqb (MemoryGames.ownerId r)
                                          (Some (user_id user))))).
    subst g. simpl. destruct (CreateGame.isActive i) as [[|]|]; simpl; split; intros H;
      try congruence; try (split; auto; fail); try discriminate.
    + destruct H as [_ H]. discriminate.
  - intros other context' now' j Hc' Hne Hid Hs.
    apply (updateGame_none_owned _ other); auto.
    intros x Hx Hidx. apply Hother; auto. congruence.
  - intros other context' now' j Hc' Hne Hid.
    apply (startSession_none_owned _ other); auto.
    intros x Hx Hidx. apply Hother; auto. congruence.
Qed.

Lemma created_game_is_the_callers_witness :
  let i := CreateGame.mk "Maze" None "pattern" None (Some false) in
  let g := MemoryGames.mk 4 (Some "alice") "Maze" None "pattern" None false 60 in
  let db' := mkDb (games Sample.catalog ++ [g]) [] [] [] in
  games db' = games Sample.catalog ++ [g] /\
  gameKeys db' /\
  MemoryGames.ownerId g = Some "alice" /\
  MemoryGames.isActive g = false /\
  (forall now',
      exists l, listMyGames (Some (ListMyGames.mk (Some true))) Sample.asAlice now' db'
                = (inr l, db') /\ In g l) /\
  (forall now',
      exists l, listMyGames None Sample.asAlice now' db' = (inr l, db') /\
                (In g l <-> CreateGame.isActive i <> Some false)) /\
  (forall other context' now' j,
      locals_user context' = Some other -> user_id other <> "alice" ->
      UpdateGame.id j = 4 -> UpdateGame.schema j = true ->
      updateGame j context' now' db'
      = (inl (mkError NOT_FOUND "Game not found."), db')) /\
  (forall other context' now' j,
      locals_user context' = Some other -> user_id other <> "alice" ->
      StartSession.gameId j = 4 ->
      startSession j context' now' db'
      = (inl (mkError NOT_FOUND "Game not available."), db')).
Proof.
  apply (created_game_is_the_callers Sample.catalog Sample.alice Sample.asAlice 60
           (CreateGame.mk "Maze" None "pattern" None (Some false))).
  - apply catalog_keys.
  - reflexivity.
  - reflexivity.
Defined.

(** ** From startSession to the rounds and the end *)

Lemma no_own_session db user id :
  (forall s, In s (sessions db) -> MemorySessions.id s = id ->
             MemorySessions.userId s <> user_id user) ->
  select (ownSession id user) (sessions db) = [].
Proof.
  intros Hnone. apply select_none. intros s Hs. destruct (holds _) eqn:E; [|reflexivity].
  apply ownSession_holds in E as [Hid Hu]. now destruct (Hnone s Hs Hid).
Qed.

(** X17: a session that [startSession] has returned is stored last, under
    an id no other session has, for the caller, [in_progress], with
    [totalScore] 0 and without end time.  With safe integers in the
    requests, the caller can record a round against it and can complete
    it, which by default makes it [completed] at the time of that request
    and keeps its start time; to any other user, [completeSession] and
    [recordRound] on its id say NOT_FOUND and write nothing. *)
Theorem started_session_is_the_callers db user context now i s db' :
  sessionKeys db ->
  locals_user context = Some user ->
  startSession i context now db = (inr s, db') ->
  sessions db' = sessions db ++ [s] /\
  sessionKeys db' /\
  MemorySessions.userId s = user_id user /\
  MemorySessions.gameId s = StartSession.gameId i /\
  MemorySessions.status s = in_progress /\
  MemorySessions.totalScore s = 0 /\
  MemorySessions.endedAt s = None /\
  (forall now' total,
      0 <= total -> safeInteger total = true ->
      exists s' db'',
        completeSession (CompleteSession.mk (MemorySessions.id s) (Some total)
                           None None None) context now' db'
        = (inr (Some s'), db'') /\
        In s' (sessions db'') /\
        MemorySessions.id s' = MemorySessions.id s /\
        MemorySessions.status s' = completed /\
        MemorySessions.totalScore s' = total /\
        MemorySessions.startedAt s' = now /\
        MemorySessions.endedAt s' = Some now') /\
  (forall now' j p,
      RecordRound.sessionId j = MemorySessions.id s ->
      RecordRound.schema j = true ->
      safeRound j = true ->
      json_column (RecordRound.prompt j) = Some p ->
      exists r,
        recordRound j context now' db'
        = (inr r, mkDb (games db') (sessions db') (rounds db' ++ [r]) (performance db')) /\
        MemoryRounds.sessionId r = MemorySessions.id s /\
        MemoryRounds.prompt r = p) /\
  (forall other context' now',
      locals_user context' = Some other -> user_id other <> user_id user ->
      (forall j, CompleteSession.id j = MemorySessions.id s ->
                 CompleteSession.schema j = true ->
                 completeSession j context' now' db'
                 = (inl (mkError NOT_FOUND "Session not found."), db')) /\
      (forall j, RecordRound.sessionId j = MemorySessions.id s ->
                 RecordRound.schema j = true ->
                 recordRound j context' now' db'
                 = (inl (mkError NOT_FOUND "Session not found."), db'))).
Proof.
  unfold sessionKeys. intros Hk Hctx.
  unfold startSession, StartSession.handler. run_action. rewrite Hctx. simpl.
  destruct (limit1 _) as [g|]; simpl; [|discriminate].
  destruct (MemoryGames.isActive g); simpl; [|discriminate].
  unfold insertSession. intros [= <- <-].
  set (s := MemorySessions.mk _ _ _ _ _ _ _ _ _).
  set (db' := mkDb _ _ _ _).
  assert (Hk' : sessionKeys db').
  { unfold sessionKeys, db'. cbn [sessions]. rewrite map_app.
    apply NoDup_snoc; [assumption|]. apply nextId_not_in. }
  assert (Hin : In s (sessions db')) by (apply in_or_app; right; now left).
  do 7 (split; [reflexivity || assumption|]).
  assert (Hu : MemorySessions.userId s = user_id user) by reflexivity.
  assert (Hst : MemorySessions.startedAt s = now) by reflexivity.
  assert (Hret : sessionReturns s = true) by reflexivity.
  clearbody s db'.
  split; [|split].
  - intros now' total Htotal Hsafe. eexists _, _. split.
    + rewrite (completeSession_run db' s user context now'
                 (CompleteSession.mk (MemorySessions.id s) (Some total) None None None)
                 Hk' Hin Hctx Hu Logic.eq_refl); [|simpl; now apply Z.leb_le | assumption].
      rewrite set_returns. cbn [CompleteSession.totalScore nullish].
      rewrite (safeInteger_returns _ Hsafe). reflexivity.
    + split; [|repeat split; assumption].
      apply (update_In _ (CompleteSession.set _ s now')); [assumption|].
      now rewrite holds_eq_Z, Z.eqb_refl.
  - intros now' j p Hid Hs Hj Hp.
    unfold recordRound, RecordRound.handler, RecordRound.notNull. run_action.
    rewrite Hs, Hctx, Hid. simpl.
    rewrite (own_session_found db' s user Hk' Hin Hu), Hret. simpl.
    rewrite Hp. simpl. unfold insertRound. cbv zeta.
    rewrite (safeRound_returns j _ _ p _ _ now' Hj).
    eexists. split; [reflexivity|].
    split; [simpl; congruence | reflexivity].
  - intros other context' now' Hc' Hne.
    assert (Hsel : select (ownSession (MemorySessions.id s) other) (sessions db') = []).
    { apply no_own_session. intros x Hx Hid.
      rewrite (NoDup_map_In_eq MemorySessions.id _ x s Hk' Hx Hin Hid). congruence. }
    split; intros j Hid Hs.
    + unfold completeSession, CompleteSession.handler. run_action.
      now rewrite Hs, Hc', Hid, Hsel.
    + unfold recordRound, RecordRound.handler. run_action.
      now rewrite Hs, Hc', Hid, Hsel.
Qed.

Lemma started_session_is_the_callers_witness :
  let i := StartSession.mk 2 (Some "easy") None in
  let s := MemorySessions.mk 1 2 "alice" in_progress 0 (Some "easy") 70 None None in
  let db' := mkDb (games Sample.catalog) [s] [] [] in
  sessions db' = sessions Sample.catalog ++ [s] /\
  sessionKeys db' /\
  MemorySessions.userId s = "alice" /\
  MemorySessions.gameId s = 2 /\
  MemorySessions.status s = in_progress /\
  MemorySessions.totalScore s = 0 /\
  MemorySessions.endedAt s = None /\
  (forall now' total,
      0 <= total -> safeInteger total = true ->
      exists s' db'',
        completeSession (CompleteSession.mk 1 (Some total) None None None)
          Sample.asAlice now' db'
        = (inr (Some s'), db'') /\
        In s' (sessions db'') /\
        MemorySessions.id s' = 1 /\
        MemorySessions.status s' = completed /\
        MemorySessions.totalScore s' = total /\
        MemorySessions.startedAt s' = 70 /\
        MemorySessions.endedAt s' = Some now') /\
  (forall now' j p,
      RecordRound.sessionId j = 1 ->
      RecordRound.schema j = true ->
      safeRound j = true ->
      json_column (RecordRound.prompt j) = Some p ->
      exists r,
        recordRound j Sample.asAlice now' db'
        = (inr r, mkDb (games db') (sessions db') (rounds db' ++ [r]) (performance db')) /\
        MemoryRounds.sessionId r = 1 /\
        MemoryRounds.prompt r = p) /\
  (forall other context' now',
      locals_user context' = Some other -> user_id other <> "alice" ->
      (forall j, CompleteSession.id j = 1 ->
                 CompleteSession.schema j = true ->
                 completeSession j context' now' db'
                 = (inl (mkError NOT_FOUND "Session not found."), db')) /\
      (forall j, RecordRound.sessionId j = 1 ->
                 RecordRound.schema j = true ->
                 recordRound j context' now' db'
                 = (inl (mkError NOT_FOUND "Session not found."), db'))).
Proof.
  apply (started_session_is_the_callers Sample.catalog Sample.alice Sample.asAlice 70
           (StartSession.mk 2 (Some "easy") None)).
  - constructor.
  - reflexivity.
  - reflexivity.
Defined.
